(** * sttr: k-NN evaluation and brain datasets

    A shallow embedding of [utils/knn.py] (class [KNNEvaluator]) and of
    [datasets/brain.py] (classes [BrainProcessor] and [BrainMoCo]).

    Tensors of floats are lists of real numbers: a 1-D tensor is a
    [list R], a 2-D tensor a list of rows.  Integer tensors are lists of
    [Z] (labels, which may be the sentinel -1) or of [nat] (indices).
    Python exceptions are the [Raise] branch of [result]. *)

From Stdlib Require Import String.
From Stdlib Require Import List Arith ZArith Lia Bool Permutation Sorted.
From Stdlib Require Import Reals Lra.
Import ListNotations.

Open Scope R_scope.

(** ** Exceptions *)

Inductive error : Type :=
| ShapeError        (* RuntimeError: tensor sizes do not match *)
| IndexError        (* index out of range *)
| EmptyCatError     (* torch.cat of an empty list *)
| ZeroDivisionError
| StopIteration     (* next() of an empty iterator *)
| AssertionError
| ValueError
| TypeError
| FileNotFoundError.

Inductive result (A : Type) : Type :=
| Ok (a : A)
| Raise (e : error).

Arguments Ok {A} a.
Arguments Raise {A} e.

Definition bind {A B : Type} (c : result A) (k : A -> result B) : result B :=
  match c with
  | Ok a => k a
  | Raise e => Raise e
  end.

Notation "x <- c ;; k" := (bind c (fun x => k))
  (at level 61, c at next level, right associativity).

Definition is_ok {A : Type} (c : result A) : Prop :=
  exists a, c = Ok a.

Definition raises {A : Type} (c : result A) : Prop :=
  exists e, c = Raise e.

Fixpoint mapM {A B : Type} (f : A -> result B) (l : list A) : result (list B) :=
  match l with
  | [] => Ok []
  | a :: l' => b <- f a ;; bs <- mapM f l' ;; Ok (b :: bs)
  end.

(** ** Tensors *)

Definition Vec := list R.
Definition Mat := list Vec.

Definition Rsum (l : list R) : R := fold_right Rplus 0 l.

Fixpoint map2 {A B C : Type} (f : A -> B -> C) (l : list A) (l' : list B) : list C :=
  match l, l' with
  | a :: t, b :: t' => f a b :: map2 f t t'
  | _, _ => []
  end.

Definition dot (u v : Vec) : R := Rsum (map2 Rmult u v).

Definition nrows (A : Mat) : nat := length A.

Definition ncols (A : Mat) : nat :=
  match A with
  | [] => 0%nat
  | r :: _ => length r
  end.

Definition col (m : nat) (A : Mat) : Vec := map (fun r => nth m r 0) A.

(** [A.T] *)
Definition transpose (A : Mat) : Mat :=
  map (fun f => col f A) (seq 0 (ncols A)).

Definition is_matrix (r c : nat) (A : Mat) : Prop :=
  length A = r /\ Forall (fun row => length row = c) A.

(** [v.norm(p=2)] *)
Definition norm2 (v : Vec) : R := sqrt (Rsum (map (fun x => x * x) v)).

Definition normalize_eps : R := / 1000000000000.

(** [F.normalize(z, dim=1)]: each row is divided by
    [max(norm, eps)], with [eps = 1e-12]. *)
Definition normalize_row (v : Vec) : Vec :=
  map (fun x => x / Rmax (norm2 v) normalize_eps) v.

Definition normalize (z : Mat) : Mat := map normalize_row z.

(** [torch.cat(ts, dim=0)] *)
Definition cat0 (ts : list Mat) : result Mat :=
  match ts with
  | [] => Raise EmptyCatError
  | t :: _ =>
      if forallb (fun t' => Nat.eqb (ncols t') (ncols t)) ts
      then Ok (concat ts)
      else Raise ShapeError
  end.

(** [torch.cat] of 1-D tensors *)
Definition cat1 {A : Type} (ts : list (list A)) : result (list A) :=
  match ts with
  | [] => Raise EmptyCatError
  | _ => Ok (concat ts)
  end.

(** [torch.einsum('bf,fm->bm', [query, memory_bank])] for a query of
    shape [(B, F)] and a memory bank of shape [(F', M)].  The library
    broadcasts the dimension [f] it sums over: [F] and [F'] must be
    equal, or one of them must be 1, and the operand in which it is 1 is
    repeated along it. *)
Definition einsum_bf_fm (query memory_bank : Mat) : result Mat :=
  if forallb (fun q => Nat.eqb (length q) (nrows memory_bank)) query
  then Ok (map (fun q => map (fun m => dot q (col m memory_bank))
                             (seq 0 (ncols memory_bank))) query)
  else if forallb (fun q => Nat.eqb (length q) 1) query
  then Ok (map (fun q => map (fun m => dot (repeat (nth 0 q 0) (nrows memory_bank))
                                           (col m memory_bank))
                             (seq 0 (ncols memory_bank))) query)
  else if (Nat.eqb (nrows memory_bank) 1
           && forallb (fun q => Nat.eqb (length q) (ncols query)) query)%bool
  then Ok (map (fun q => map (fun m => dot q (repeat (nth 0 (col m memory_bank) 0)
                                                     (length q)))
                             (seq 0 (ncols memory_bank))) query)
  else Raise ShapeError.

(** ** Sorting

    [Tensor.sort] and [Tensor.argsort] are called with [descending=True]
    and without [stable=True]: the library promises a permutation of the
    indices along which the values do not increase, and nothing about the
    relative order of equal values.  The order is a function of the input
    (the same tensor sorts the same way twice). *)

Definition descending (l : list R) : Prop := StronglySorted Rge l.

Definition take (idx : list nat) (l : list R) : list R :=
  map (fun i => nth i l 0) idx.

Class TorchSort : Type := {
  argsort_desc : list R -> list nat;
  argsort_desc_perm : forall l, Permutation (argsort_desc l) (seq 0 (length l));
  argsort_desc_sorted : forall l, descending (take (argsort_desc l) l)
}.

(** Two sorts that keep the library's promise.  Both insert the indices
    0, 1, 2, ... one after the other into a sorted list; [before vj vi]
    decides whether index [i] goes in front of an index [j] already
    there. *)

Definition Rltb (x y : R) : bool := if Rlt_dec x y then true else false.
Definition Rleb (x y : R) : bool := if Rle_dec x y then true else false.

Fixpoint insert_by (before : R -> R -> bool) (l : list R) (i : nat)
  (sorted : list nat) : list nat :=
  match sorted with
  | [] => [i]
  | j :: rest =>
      if before (nth j l 0) (nth i l 0)
      then i :: j :: rest
      else j :: insert_by before l i rest
  end.

Definition argsort_by (before : R -> R -> bool) (l : list R) : list nat :=
  fold_right (insert_by before l) [] (rev (seq 0 (length l))).

(** equal values keep their order: the lowest index comes first *)
Definition stable_argsort (l : list R) : list nat := argsort_by Rltb l.

(** equal values come out in reverse order: the highest index first *)
Definition reversing_argsort (l : list R) : list nat := argsort_by Rleb l.

(** ** KNNEvaluator *)

Record KNNEvaluator : Type := {
  num_neighbors : list nat;
  num_classes : nat;
  temperature : R
}.

Inductive num_neighbors_arg : Type :=
| ArgInt (k : nat)
| ArgList (ks : list nat)
| ArgOther.

Definition default_temperature : R := / 10.

Inductive init_result : Type :=
| Constructed (self : KNNEvaluator)
| NotImplementedError.

(** [KNNEvaluator.__init__]; [T = None] when the caller leaves the
    temperature to its default *)
Definition init (arg : num_neighbors_arg) (C : nat) (T : option R) : init_result :=
  let temperature := match T with Some t => t | None => default_temperature end in
  match arg with
  | ArgInt k =>
      Constructed {| num_neighbors := [k]; num_classes := C; temperature := temperature |}
  | ArgList ks =>
      Constructed {| num_neighbors := ks; num_classes := C; temperature := temperature |}
  | ArgOther => NotImplementedError
  end.

(** [torch.gather(input, dim=1, index)] *)
Definition gather (input : list (list Z)) (index : list (list nat))
  : result (list (list Z)) :=
  if (length index <=? length input)%nat
  then mapM (fun p : list Z * list nat =>
               mapM (fun i => match nth_error (fst p) i with
                              | Some y => Ok y
                              | None => Raise IndexError
                              end) (snd p))
            (combine input index)
  else Raise ShapeError.

(** [torch.zeros(n, c)] *)
Definition zeros (n c : nat) : Mat := repeat (repeat 0 c) n.

Fixpoint set_nth (i : nat) (v : R) (row : Vec) : Vec :=
  match row, i with
  | [], _ => []
  | _ :: t, O => v :: t
  | x :: t, S i' => x :: set_nth i' v t
  end.

(** [self.scatter_(dim=-1, index=index.view(-1, 1), value=1)]: row [i]
    of [self] gets a 1 in column [index[i]]; rows past the end of
    [index] are left as they are. *)
Fixpoint scatter_ (self : Mat) (index : list Z) {struct index} : result Mat :=
  match index with
  | [] => Ok self
  | i :: index' =>
      match self with
      | [] => Raise ShapeError
      | row :: self' =>
          if ((0 <=? i)%Z && (Z.to_nat i <? length row)%nat)%bool
          then rest <- scatter_ self' index' ;;
               Ok (set_nth (Z.to_nat i) 1 row :: rest)
          else Raise IndexError
      end
  end.

(** [t.view(B, k, C)] of a [(B*k, C)] tensor *)
Definition view3 (B k : nat) (t : Mat) : list Mat :=
  map (fun b => firstn k (skipn (b * k) t)) (seq 0 B).

(** [a * w.unsqueeze(dim=-1)] for [a] of shape [(B, k, C)] and [w] of shape
    [(B, kk)], with the broadcasting rule on dimension 1: the sizes must be
    equal, or one of them must be 1. *)
Definition mul_unsqueeze (k kk : nat) (a : list Mat) (w : Mat) : result (list Mat) :=
  if (k =? kk)%nat then
    Ok (map2 (fun g ws => map2 (fun row s => map (fun x => x * s) row) g ws) a w)
  else if (kk =? 1)%nat then
    Ok (map2 (fun g ws => map (fun row => map (fun x => x * nth 0 ws 0) row) g) a w)
  else if (k =? 1)%nat then
    Ok (map2 (fun g ws => map (fun s => map (fun x => x * s) (nth 0 g [])) ws) a w)
  else Raise ShapeError.

(** [t.sum(dim=1)] of a [(B, n, C)] tensor *)
Definition sum_dim1 (C : nat) (t : list Mat) : Mat :=
  map (fun g => map (fun c => Rsum (col c g)) (seq 0 C)) t.

Section Predict.

Context {sorter : TorchSort}.

(** [KNNEvaluator.predict].  The weights [(sim_weight / T).exp()] are
    real numbers here.  For [T = 0] the floating-point division of the
    code gives infinities and NaN, which the reals do not have: the
    model says what the code computes for [T <> 0] only, and as long as
    [exp] stays within the range of the floats. *)
Definition predict (self : KNNEvaluator) (k : nat) (query memory_bank : Mat)
  (memory_labels : list Z) : result (list (list nat)) :=
  let C := num_classes self in
  let T := temperature self in
  let B := length query in
  sim_matrix <- einsum_bf_fm query memory_bank ;;
  let sorted_weight := map (fun row => take (argsort_desc row) row) sim_matrix in
  let sorted_indices := map argsort_desc sim_matrix in
  let sim_weight := map (firstn k) sorted_weight in
  let sim_indices := map (firstn k) sorted_indices in
  let kk := Nat.min k (ncols memory_bank) in
  let sim_weight := map (map (fun s => exp (s / T))) sim_weight in
  sim_labels <- gather (repeat memory_labels B) sim_indices ;;
  let one_hot := zeros (B * k) C in
  one_hot <- scatter_ one_hot (concat sim_labels) ;;
  pred <- mul_unsqueeze k kk (view3 B k one_hot) sim_weight ;;
  let pred := sum_dim1 C pred in
  Ok (map argsort_desc pred).

End Predict.

(** ** The network and the evaluation loop

    [evaluate] runs a [nn.Module] it is given.  What it can touch of the
    outside is kept in a [World]: the module (its parameters and its
    train/eval flag) and the automatic-differentiation engine (whether
    gradients are being recorded, and the forward passes recorded so far).
    The progress bar only displays and is left out. *)

Section Evaluate.

Context {sorter : TorchSort}.

(** a batch of images, [batch['x']] *)
Variable Input : Type.

(** the forward pass of the module: a function of its parameters, its
    train/eval flag and the input *)
Variable forward : list Vec -> bool -> Input -> Mat.

(** an [nn.Module] *)
Record NNModule : Type := {
  parameters : list Vec;
  training : bool
}.

Record Autograd : Type := {
  grad_enabled : bool;
  graph : list Input
}.

Record World : Type := {
  net : NNModule;
  autograd : Autograd
}.

Definition M (A : Type) : Type := World -> result A * World.

Definition ret {A : Type} (a : A) : M A := fun w => (Ok a, w).

Definition lift {A : Type} (r : result A) : M A := fun w => (r, w).

Definition bindM {A B : Type} (c : M A) (k : A -> M B) : M B :=
  fun w => match c w with
           | (Ok a, w') => k a w'
           | (Raise e, w') => (Raise e, w')
           end.

Notation "x <~ c ;; k" := (bindM c (fun x => k))
  (at level 61, c at next level, right associativity).

(** [net.eval()] *)
Definition eval_mode : M unit :=
  fun w => (Ok tt, {| net := {| parameters := parameters (net w); training := false |};
                      autograd := autograd w |}).

(** [next(net.parameters())] *)
Definition next_parameter : M Vec :=
  fun w => match parameters (net w) with
           | [] => (Raise StopIteration, w)
           | p :: _ => (Ok p, w)
           end.

(** [net(x)]: the forward pass is recorded for a later backward pass
    only while gradients are enabled. *)
Definition call_net (x : Input) : M Mat :=
  fun w =>
    (Ok (forward (parameters (net w)) (training (net w)) x),
     {| net := net w;
        autograd := {| grad_enabled := grad_enabled (autograd w);
                       graph := if grad_enabled (autograd w)
                                then x :: graph (autograd w)
                                else graph (autograd w) |} |}).

(** the decorator [@torch.no_grad()]: gradients are off inside the
    call, and the former mode comes back when it ends, also by an
    exception *)
Definition no_grad {A : Type} (body : M A) : M A :=
  fun w =>
    let '(r, w') := body {| net := net w;
                            autograd := {| grad_enabled := false;
                                           graph := graph (autograd w) |} |} in
    (r, {| net := net w';
           autograd := {| grad_enabled := grad_enabled (autograd w);
                          graph := graph (autograd w') |} |}).

Record Batch : Type := {
  x : Input;
  y : list Z
}.

Record DataLoader : Type := {
  batches : list Batch;       (* what iterating over the loader yields *)
  dataset_len : nat           (* len(loader.dataset) *)
}.

(** the first loop of [evaluate]: [memory_bank] and [memory_labels]
    grow by one entry per batch *)
Fixpoint extract_memory (bs : list Batch) (memory_bank : list Mat)
  (memory_labels : list (list Z)) : M (list Mat * list (list Z)) :=
  match bs with
  | [] => ret (memory_bank, memory_labels)
  | batch :: bs' =>
      z <~ call_net (x batch) ;;
      extract_memory bs' (memory_bank ++ [normalize z]) (memory_labels ++ [y batch])
  end.

(** step 1 of [evaluate]: the loop, then the two [torch.cat] and the
    transposition *)
Definition build_memory (bs : list Batch) : M (Mat * list Z) :=
  mem <~ extract_memory bs [] [] ;;
  bank <~ lift (cat0 (fst mem)) ;;
  let memory_bank := transpose bank in
  memory_labels <~ lift (cat1 (snd mem)) ;;
  ret (memory_bank, memory_labels).

(** [t[:, 0].squeeze()] of an integer tensor of shape [(B, C)] *)
Definition first_column (C : nat) (t : list (list nat)) : result (list nat) :=
  if (C =? 0)%nat then Raise IndexError else Ok (map (fun r => nth 0 r 0%nat) t).

Definition label_eqb (y : Z) (p : nat) : bool := (y =? Z.of_nat p)%Z.

Definition count_true (l : list bool) : nat := length (filter (fun b => b) l).

(** [y.eq(y_pred).sum().item()], with broadcasting when one of the two
    has a single element *)
Definition eq_sum (y : list Z) (y_pred : list nat) : result nat :=
  if (length y =? length y_pred)%nat then
    Ok (count_true (map2 label_eqb y y_pred))
  else if (length y_pred =? 1)%nat then
    Ok (count_true (map (fun yi => label_eqb yi (nth 0 y_pred 0%nat)) y))
  else if (length y =? 1)%nat then
    Ok (count_true (map (fun p => label_eqb (nth 0 y 0%Z) p) y_pred))
  else Raise ShapeError.

(** [corrects[i] += n] *)
Fixpoint add_at (i : nat) (n : nat) (corrects : list nat) : result (list nat) :=
  match corrects, i with
  | [], _ => Raise IndexError
  | c :: t, O => Ok ((c + n)%nat :: t)
  | c :: t, S i' => t' <- add_at i' n t ;; Ok (c :: t')
  end.

(** the loop [for i, k in enumerate(self.num_neighbors)] inside the
    query loop; [i] is the position of the head of [ks] *)
Fixpoint score_batch (self : KNNEvaluator) (z : Mat) (y : list Z)
  (memory_bank : Mat) (memory_labels : list Z)
  (i : nat) (ks : list nat) (corrects : list nat) : result (list nat) :=
  match ks with
  | [] => Ok corrects
  | k :: ks' =>
      ranking <- predict self k z memory_bank memory_labels ;;
      y_pred <- first_column (num_classes self) ranking ;;
      n <- eq_sum y y_pred ;;
      corrects <- add_at i n corrects ;;
      score_batch self z y memory_bank memory_labels (S i) ks' corrects
  end.

(** the second loop of [evaluate] *)
Fixpoint score_queries (self : KNNEvaluator) (bs : list Batch)
  (memory_bank : Mat) (memory_labels : list Z)
  (corrects : list nat) : M (list nat) :=
  match bs with
  | [] => ret corrects
  | batch :: bs' =>
      out <~ call_net (x batch) ;;
      let z := normalize out in
      corrects <~ lift (score_batch self z (y batch) memory_bank memory_labels
                                    0 (num_neighbors self) corrects) ;;
      score_queries self bs' memory_bank memory_labels corrects
  end.

(** the dictionary [scores]; its keys ['knn@k'] are kept as [k] *)
Definition Scores := list (nat * R).

Fixpoint dict_set (k : nat) (v : R) (d : Scores) : Scores :=
  match d with
  | [] => [(k, v)]
  | (k', v') :: d' => if (k' =? k)%nat then (k, v) :: d' else (k', v') :: dict_set k v d'
  end.

Fixpoint dict_get (k : nat) (d : Scores) : option R :=
  match d with
  | [] => None
  | (k', v') :: d' => if (k' =? k)%nat then Some v' else dict_get k d'
  end.

(** [corrects[i] / len(query_loader.dataset)] *)
Definition true_div (c n : nat) : result R :=
  if (n =? 0)%nat then Raise ZeroDivisionError else Ok (INR c / INR n).

(** the last loop of [evaluate] *)
Fixpoint fill_scores (n : nat) (i : nat) (ks : list nat) (corrects : list nat)
  (scores : Scores) : result Scores :=
  match ks with
  | [] => Ok scores
  | k :: ks' =>
      c <- match nth_error corrects i with
           | Some c => Ok c
           | None => Raise IndexError
           end ;;
      s <- true_div c n ;;
      fill_scores n (S i) ks' corrects (dict_set k s scores)
  end.

(** [KNNEvaluator.evaluate] *)
Definition evaluate (self : KNNEvaluator) (memory_loader query_loader : DataLoader)
  : M Scores :=
  no_grad (
    _ <~ eval_mode ;;
    _ <~ next_parameter ;;
    mem <~ build_memory (batches memory_loader) ;;
    let memory_bank := fst mem in
    let memory_labels := snd mem in
    let corrects := repeat 0%nat (length (num_neighbors self)) in
    corrects <~ score_queries self (batches query_loader) memory_bank memory_labels
                              corrects ;;
    lift (fill_scores (dataset_len query_loader) 0 (num_neighbors self) corrects [])).

End Evaluate.

Arguments net {Input} _.
Arguments autograd {Input} _.
Arguments grad_enabled {Input} _.
Arguments graph {Input} _.
Arguments Build_World {Input} _ _.
Arguments Build_Autograd {Input} _ _.
Arguments x {Input} _.
Arguments y {Input} _.
Arguments Build_Batch {Input} _ _.
Arguments batches {Input} _.
Arguments dataset_len {Input} _.
Arguments Build_DataLoader {Input} _ _.
Arguments ret {Input A} _ _.
Arguments lift {Input A} _ _.
Arguments bindM {Input A B} _ _ _.
Arguments eval_mode {Input} _.
Arguments next_parameter {Input} _.
Arguments call_net {Input} _ _ _.
Arguments no_grad {Input A} _ _.
Arguments extract_memory {Input} _ _ _ _ _.
Arguments build_memory {Input} _ _ _.
Arguments score_queries {sorter Input} _ _ _ _ _ _ _.
Arguments evaluate {sorter Input} _ _ _ _ _.

(** ** datasets/brain.py *)

Module Brain.

(** a cell of the columns [MRI] and [PET]: an identifier, or NaN *)
Inductive cell : Type :=
| Str (s : string)
| NaN.

Record Row : Type := {
  RID : string;
  Conv : Z;
  MRI : cell;
  PET : cell
}.

(** the dictionaries built by [parse_data] *)
Record Dataset : Type := {
  mri : list cell;
  pet : list cell;
  y : list Z
}.

Record Datasets : Type := {
  train : Dataset;
  test : Dataset;
  u_train : Dataset
}.

Record BrainProcessor : Type := {
  root : string;
  data_info : list Row;         (* rows with Conv in {0, 1} *)
  u_data_info : list Row;       (* rows with Conv = -1 *)
  random_state : nat;
  class_weight : option (list R)
}.

Section Processor.

(** [os.path.join] *)
Variable path_join : string -> string -> string -> string.

(** [StratifiedGroupKFold(n_splits, shuffle=True, random_state).split(X, y, groups)]:
    the list of (train indices, test indices) it yields *)
Variable cv_split : nat -> nat -> list string -> list Z -> list string
                    -> result (list (list nat * list nat)).

(** [class_weight.compute_class_weight('balanced', classes=np.unique(y), y=y)] *)
Variable compute_class_weight : list Z -> result (list R).

Definition str2mri (self : BrainProcessor) (i : string) : string :=
  path_join (root self) "template/FS7" (i ++ ".pkl").

Definition str2pet (self : BrainProcessor) (i : string) : string :=
  path_join (root self) "template/PUP_FBP" (i ++ ".pkl").

Definition parse_data (self : BrainProcessor) (info : list Row) : Dataset :=
  {| mri := map (fun r => match MRI r with
                          | Str p => Str (str2mri self p)
                          | NaN => NaN
                          end) info;
     pet := map (fun r => match PET r with
                          | Str p => Str (str2pet self p)
                          | NaN => NaN
                          end) info;
     y := map Conv info |}.

(** [df.iloc[idx].reset_index(drop=True)] *)
Definition iloc (df : list Row) (idx : list nat) : result (list Row) :=
  mapM (fun i => match nth_error df i with
                 | Some r => Ok r
                 | None => Raise IndexError
                 end) idx.

(** [s.isin(values)] on one entry *)
Definition isin (values : list string) (s : string) : bool :=
  existsb (String.eqb s) values.

(** [process], up to the three tables [train_info], [test_info] and
    [u_train_info] *)
Definition split_info (self : BrainProcessor) (n_splits : nat) (n_cv : Z)
  : result (list Row * list Row * list Row) :=
  let rid := map RID (data_info self) in
  let conv := map Conv (data_info self) in
  if (n_splits <? 2)%nat then Raise ValueError else
  if negb ((0 <=? n_cv)%Z && (n_cv <? Z.of_nat n_splits)%Z) then Raise AssertionError else
  folds <- cv_split n_splits (random_state self) rid conv rid ;;
  let train_idx_list := map fst folds in
  let test_idx_list := map snd folds in
  train_idx <- match nth_error train_idx_list (Z.to_nat n_cv) with
               | Some t => Ok t
               | None => Raise IndexError
               end ;;
  test_idx <- match nth_error test_idx_list (Z.to_nat n_cv) with
              | Some t => Ok t
              | None => Raise IndexError
              end ;;
  train_info <- iloc (data_info self) train_idx ;;
  test_info <- iloc (data_info self) test_idx ;;
  let test_rid := nodup string_dec (map RID test_info) in
  let u_train_info := filter (fun r => negb (isin test_rid (RID r))) (u_data_info self) in
  Ok (train_info, test_info, u_train_info).

(** [BrainProcessor.process]: the data sets, and the processor with
    its [u_data_info] and [class_weight] updated *)
Definition process (self : BrainProcessor) (n_splits : nat) (n_cv : Z)
  : result (Datasets * BrainProcessor) :=
  infos <- split_info self n_splits n_cv ;;
  let '(train_info, test_info, u_train_info) := infos in
  let train_data := parse_data self train_info in
  let test_data := parse_data self test_info in
  let u_train_data := parse_data self u_train_info in
  w <- compute_class_weight (y train_data) ;;
  Ok ({| train := train_data; test := test_data; u_train := u_train_data |},
      {| root := root self;
         data_info := data_info self;
         u_data_info := u_train_info;
         random_state := random_state self;
         class_weight := Some w |}).

End Processor.

(** *** BrainBase and BrainMoCo *)

Section MoCo.

(** a loaded volume, and the state of the random generators the
    augmentations draw from *)
Variables Image Rng : Type.

(** the pickled file at a path, if there is one *)
Variable files : string -> option Image.

Record BrainMoCo : Type := {
  paths : list cell;
  labels : list Z;
  query_transform : Image -> Rng -> Image * Rng;
  key_transform : Image -> Rng -> Image * Rng
}.

(** [BrainMoCo.__init__] with [BrainBase.__init__] *)
Definition moco_init (dataset : Dataset) (data_type : string)
  (qt kt : Image -> Rng -> Image * Rng) : result BrainMoCo :=
  if (data_type =? "mri")%string then
    Ok {| paths := mri dataset; labels := y dataset;
          query_transform := qt; key_transform := kt |}
  else if (data_type =? "pet")%string then
    Ok {| paths := pet dataset; labels := y dataset;
          query_transform := qt; key_transform := kt |}
  else Raise AssertionError.

(** [__len__] *)
Definition len (self : BrainMoCo) : nat := length (labels self).

(** [load_image] *)
Definition load_image (path : cell) : result Image :=
  match path with
  | NaN => Raise TypeError
  | Str p => match files p with
             | Some img => Ok img
             | None => Raise FileNotFoundError
             end
  end.

(** the dictionary [dict(x1=x1, x2=x2, y=y, idx=idx)] *)
Record Item : Type := {
  x1 : Image;
  x2 : Image;
  item_y : Z;
  idx : nat
}.

(** [BrainMoCo.__getitem__] *)
Definition getitem (self : BrainMoCo) (i : nat) (g : Rng) : result Item * Rng :=
  match nth_error (paths self) i with
  | None => (Raise IndexError, g)
  | Some path =>
      match load_image path with
      | Raise e => (Raise e, g)
      | Ok img =>
          let '(v1, g1) := query_transform self img g in
          let '(v2, g2) := key_transform self img g1 in
          match nth_error (labels self) i with
          | None => (Raise IndexError, g2)
          | Some yi => (Ok {| x1 := v1; x2 := v2; item_y := yi; idx := i |}, g2)
          end
      end
  end.

End MoCo.

Arguments paths {Image Rng} _.
Arguments labels {Image Rng} _.
Arguments query_transform {Image Rng} _ _ _.
Arguments key_transform {Image Rng} _ _ _.
Arguments Build_BrainMoCo {Image Rng} _ _ _ _.
Arguments moco_init {Image Rng} _ _ _ _.
Arguments len {Image Rng} _.
Arguments load_image {Image} _ _.
Arguments x1 {Image} _.
Arguments x2 {Image} _.
Arguments item_y {Image} _.
Arguments idx {Image} _.
Arguments Build_Item {Image} _ _ _ _.
Arguments getitem {Image Rng} _ _ _ _.

End Brain.

(** ** The words of the specification

    The definitions below are not taken from the code: they say what the
    specification says, to be compared with what the code computes. *)

(** the similarities of one query to the columns of the memory bank *)
Definition cos_sims (q : Vec) (memory_bank : Mat) : list R :=
  map (fun m => dot q (col m memory_bank)) (seq 0 (ncols memory_bank)).

(** [N] holds [k] memory entries of highest similarity: no entry outside
    of [N] is more similar than an entry of [N] *)
Definition is_top_k (sims : list R) (k : nat) (N : list nat) : Prop :=
  NoDup N /\ length N = k /\
  (forall i, In i N -> (i < length sims)%nat) /\
  (forall i j, In i N -> (j < length sims)%nat -> ~ In j N ->
               nth j sims 0 <= nth i sims 0).

(** the vote of class [c]: the sum of [exp(similarity / T)] over the
    neighbours labelled [c] *)
Definition weighted_vote (T : R) (sims : list R) (labels : list Z)
  (N : list nat) (c : nat) : R :=
  Rsum (map (fun i => exp (nth i sims 0 / T))
            (filter (fun i => label_eqb (nth i labels 0%Z) c) N)).

Definition is_argmax (f : nat -> R) (C : nat) (c : nat) : Prop :=
  (c < C)%nat /\ forall c', (c' < C)%nat -> f c' <= f c.

(** every label is a class index *)
Definition labels_in_range (C : nat) (labels : list Z) : Prop :=
  Forall (fun l => (0 <= l < Z.of_nat C)%Z) labels.

(** correct predictions among paired labels and predictions *)
Definition count_correct (y : list Z) (y_pred : list nat) : nat :=
  count_true (map2 label_eqb y y_pred).

(** ** The evaluation as a function of the network's outputs

    [evaluate] without the world: the outputs of the network on the
    batches of the two loaders, with the labels of the batches, go in;
    the scores come out. *)

Section EvaluatePure.

Context {sorter : TorchSort}.

(** the memory bank and its labels, from the outputs on the memory
    loader *)
Definition memory_of (mem : list (Mat * list Z)) : result (Mat * list Z) :=
  bank <- cat0 (map (fun b => normalize (fst b)) mem) ;;
  memory_labels <- cat1 (map snd mem) ;;
  Ok (transpose bank, memory_labels).

Fixpoint score_all (self : KNNEvaluator) (qry : list (Mat * list Z))
  (memory_bank : Mat) (memory_labels : list Z) (corrects : list nat)
  : result (list nat) :=
  match qry with
  | [] => Ok corrects
  | b :: qry' =>
      corrects <- score_batch self (normalize (fst b)) (snd b)
                              memory_bank memory_labels 0 (num_neighbors self)
                              corrects ;;
      score_all self qry' memory_bank memory_labels corrects
  end.

Definition evaluate_pure (self : KNNEvaluator) (mem qry : list (Mat * list Z))
  (n : nat) : result Scores :=
  m <- memory_of mem ;;
  corrects <- score_all self qry (fst m) (snd m)
                        (repeat 0%nat (length (num_neighbors self))) ;;
  fill_scores n 0 (num_neighbors self) corrects [].

End EvaluatePure.

(** the outputs of the network on the batches of a loader are matrices
    with [D] columns and a row per label of the batch, and no batch is
    empty *)
Definition well_shaped (D : nat) (outs : list (Mat * list Z)) : Prop :=
  Forall (fun b => is_matrix (length (snd b)) D (fst b) /\ (0 < length (snd b))%nat) outs.

(** the world after forward passes on the inputs [xs] *)
Definition after_calls {Input : Type} (xs : list Input) (w : World Input) : World Input :=
  {| net := net w;
     autograd := {| grad_enabled := grad_enabled (autograd w);
                    graph := if grad_enabled (autograd w)
                             then rev xs ++ graph (autograd w)
                             else graph (autograd w) |} |}.

(** [i] comes before [j] in a stable descending sort of [l] *)
Definition above (l : list R) (i j : nat) : Prop :=
  nth i l 0 > nth j l 0 \/ (nth i l 0 = nth j l 0 /\ (i < j)%nat).

(** ** One row of [predict]

    What [predict] does to a single query, written without the
    flattening to [(B*k, C)] and back. *)

Definition one_hot_row (C : nat) (l : Z) : Vec := set_nth (Z.to_nat l) 1 (repeat 0 C).

Section PredictRow.

Context {sorter : TorchSort}.

Definition row_votes (self : KNNEvaluator) (k : nat) (memory_labels : list Z)
  (sims : list R) : Vec :=
  let N := firstn k (argsort_desc sims) in
  let w := map (fun s => exp (s / temperature self)) (take N sims) in
  let one_hot := map (fun i => one_hot_row (num_classes self) (nth i memory_labels 0%Z)) N in
  map (fun c => Rsum (col c (map2 (fun row s => map (fun x => x * s) row) one_hot w)))
      (seq 0 (num_classes self)).

Definition predict_row (self : KNNEvaluator) (k : nat) (memory_bank : Mat)
  (memory_labels : list Z) (q : Vec) : list nat :=
  argsort_desc (row_votes self k memory_labels (cos_sims q memory_bank)).

(** the class predicted for one query: column 0 of what [predict]
    returns on the batch of that query alone *)
Definition predicted_class (self : KNNEvaluator) (k : nat) (memory_bank : Mat)
  (memory_labels : list Z) (q : Vec) : nat :=
  match predict self k [q] memory_bank memory_labels with
  | Ok (r :: _) => nth 0 r 0%nat
  | _ => 0%nat
  end.

End PredictRow.

(** the number of query samples, over all batches, whose predicted class
    is their label *)
Definition total_correct {sorter : TorchSort} (self : KNNEvaluator) (k : nat)
  (memory_bank : Mat) (memory_labels : list Z) (qry : list (Mat * list Z)) : nat :=
  list_sum (map (fun b => count_correct (snd b)
                            (map (predicted_class self k memory_bank memory_labels)
                                 (normalize (fst b)))) qry).

(** the outputs of the network on the batches, in the mode [mode] *)
Definition outputs {Input : Type} (forward : list Vec -> bool -> Input -> Mat)
  (params : list Vec) (mode : bool) (bs : list (Batch Input))
  : list (Mat * list Z) :=
  map (fun b => (forward params mode (x b), y b)) bs.

(** the world [evaluate] leaves behind *)
Definition after_evaluate {Input : Type} (w : World Input) : World Input :=
  {| net := {| parameters := parameters (net w); training := false |};
     autograd := {| grad_enabled := grad_enabled (autograd w);
                    graph := graph (autograd w) |} |}.

(** ** More of datasets/brain.py *)

Module BrainMore.

Import Brain.

(** a row of the table [pd.read_csv] returns: the columns of [Row] and
    the columns [IS_FILE] and [MCI] *)
Record CsvRow : Type := {
  row : Row;
  IS_FILE : bool;
  MCI : Z
}.

(** [~column.isna()] on one cell *)
Definition notna (c : cell) : bool :=
  match c with
  | Str _ => true
  | NaN => false
  end.

(** the cell of a row in the column of the data type *)
Definition cell_of (data_type : string) (r : Row) : cell :=
  if (data_type =? "mri")%string then MRI r else PET r.

(** [BrainProcessor.__init__], given the table read from the file *)
Definition processor_init (table : list CsvRow) (root : string) (data_type : string)
  (mci_only : bool) (random_state : nat) : result BrainProcessor :=
  if negb ((data_type =? "mri")%string || (data_type =? "pet")%string)
  then Raise AssertionError
  else
    let info := filter IS_FILE table in
    let info := if mci_only then filter (fun r => (MCI r =? 1)%Z) info else info in
    let info := if (data_type =? "mri")%string
                then filter (fun r => notna (MRI (row r))) info
                else filter (fun r => notna (PET (row r))) info in
    let u_info := filter (fun r => (Conv (row r) =? -1)%Z) info in
    let info := filter (fun r => ((Conv (row r) =? 0)%Z || (Conv (row r) =? 1)%Z)%bool)
                       info in
    Ok {| root := root;
          data_info := map row info;
          u_data_info := map row u_info;
          random_state := random_state;
          class_weight := None |}.

(** the paths a data set holds for a data type, as [BrainBase.__init__]
    picks them *)
Definition paths_of (data_type : string) (d : Dataset) : list cell :=
  if (data_type =? "mri")%string then mri d else pet d.

(** *** BrainMixUp *)

Section MixUp.

Variables Image Rng : Type.

Variable files : string -> option Image.

(** [random.randint(0, hi)] *)
Variable randint : Z -> Rng -> result nat * Rng.

(** [np.random.beta(alpha, alpha)] *)
Variable beta : R -> Rng -> result R * Rng.

(** [lam * img + (1 - lam) * img_mix] on two images *)
Variable mix : R -> Image -> Image -> result Image.

Record BrainMixUp : Type := {
  mx_paths : list cell;
  mx_labels : list Z;
  mx_transform : option (Image -> Rng -> Image * Rng);
  mx_alpha : R
}.

(** the dictionary [__getitem__] returns *)
Record MixItem : Type := {
  mx_x : Image;
  mx_x_mix : Image;
  mx_y : Vec;
  mx_y_mix : Vec;
  mx_idx : nat;
  mx_idx_mix : nat
}.

(** computations that draw random numbers and may raise *)
Definition G (A : Type) : Type := Rng -> result A * Rng.

Definition gret {A : Type} (a : A) : G A := fun g => (Ok a, g).

Definition glift {A : Type} (r : result A) : G A := fun g => (r, g).

Definition gbind {A B : Type} (c : G A) (k : A -> G B) : G B :=
  fun g => match c g with
           | (Ok a, g') => k a g'
           | (Raise e, g') => (Raise e, g')
           end.

Notation "x <~ c ;; k" := (gbind c (fun x => k))
  (at level 61, c at next level, right associativity).

(** [y = torch.zeros(2); y[label] = 1.0]: a negative index counts from
    the end *)
Definition one_hot2 (label : Z) : result Vec :=
  if ((label =? 0)%Z || (label =? -2)%Z)%bool then Ok [1; 0]
  else if ((label =? 1)%Z || (label =? -1)%Z)%bool then Ok [0; 1]
  else Raise IndexError.

(** [l[i]] *)
Definition index {A : Type} (l : list A) (i : nat) : result A :=
  match nth_error l i with
  | Some a => Ok a
  | None => Raise IndexError
  end.

(** [load_image] *)
Definition mx_load (path : cell) : result Image :=
  match path with
  | NaN => Raise TypeError
  | Str p => match files p with
             | Some img => Ok img
             | None => Raise FileNotFoundError
             end
  end.

(** [if self.transform is not None: img = self.transform(img)] *)
Definition apply_transform (self : BrainMixUp) (img : Image) : G Image :=
  match mx_transform self with
  | Some t => fun g => let '(img', g') := t img g in (Ok img', g')
  | None => gret img
  end.

(** [lam * y + (1 - lam) * y_mix] on two vectors of two entries *)
Definition mix_labels (lam : R) (y y_mix : Vec) : Vec :=
  map2 (fun a b => lam * a + (1 - lam) * b) y y_mix.

(** [BrainMixUp.__getitem__] *)
Definition mx_getitem (self : BrainMixUp) (i : nat) : G MixItem :=
  label <~ glift (index (mx_labels self) i) ;;
  y <~ glift (one_hot2 label) ;;
  path <~ glift (index (mx_paths self) i) ;;
  img <~ glift (mx_load path) ;;
  img <~ apply_transform self img ;;
  idx_mix <~ randint (Z.of_nat (length (mx_labels self)) - 1) ;;
  label_mix <~ glift (index (mx_labels self) idx_mix) ;;
  y_mix <~ glift (one_hot2 label_mix) ;;
  path_mix <~ glift (index (mx_paths self) idx_mix) ;;
  img_mix <~ glift (mx_load path_mix) ;;
  img_mix <~ apply_transform self img_mix ;;
  lam <~ beta (mx_alpha self) ;;
  img_mix <~ glift (mix lam img img_mix) ;;
  gret {| mx_x := img; mx_x_mix := img_mix;
          mx_y := y; mx_y_mix := mix_labels lam y y_mix;
          mx_idx := i; mx_idx_mix := idx_mix |}.

End MixUp.

Arguments mx_paths {Image Rng} _.
Arguments mx_labels {Image Rng} _.
Arguments mx_transform {Image Rng} _.
Arguments mx_alpha {Image Rng} _.
Arguments Build_BrainMixUp {Image Rng} _ _ _ _.
Arguments mx_x {Image} _.
Arguments mx_x_mix {Image} _.
Arguments mx_y {Image} _.
Arguments mx_y_mix {Image} _.
Arguments mx_idx {Image} _.
Arguments mx_idx_mix {Image} _.
Arguments Build_MixItem {Image} _ _ _ _ _ _.
Arguments mx_getitem {Image Rng} _ _ _ _ _ _ _.

End BrainMore.

(** ** Concrete inputs, for the examples *)

Definition tie_evaluator : KNNEvaluator :=
  {| num_neighbors := [2%nat]; num_classes := 2; temperature := default_temperature |}.

Definition scenario_bank : Mat := [[1; 0; -1; 0]; [0; 1; 0; -1]].

Definition scenario_labels : list Z := [0; 0; 1; 1]%Z.

Definition some_world : World unit :=
  {| net := {| parameters := [[1]]; training := true |};
     autograd := {| grad_enabled := true; graph := [] |} |}.

Definition one_batch : list (Batch unit) := [ {| x := tt; y := [0%Z] |} ].

Definition one_nn_evaluator : KNNEvaluator :=
  {| num_neighbors := [1%nat]; num_classes := 2; temperature := default_temperature |}.

Definition one_batch_loader : DataLoader unit :=
  {| batches := one_batch; dataset_len := 1 |}.

Definition other_world : World unit :=
  {| net := {| parameters := [[2; 3]]; training := false |};
     autograd := {| grad_enabled := false; graph := [tt] |} |}.

Definition toy_files (p : string) : option nat :=
  if (p =? "root/template/FS7/s1.pkl")%string then Some 7%nat
  else if (p =? "root/template/FS7/s2.pkl")%string then Some 9%nat
  else None.

Definition toy_moco : Brain.BrainMoCo nat nat :=
  {| Brain.paths := [Brain.Str "root/template/FS7/s1.pkl";
                     Brain.Str "root/template/FS7/s2.pkl"];
     Brain.labels := [1%Z; (-1)%Z];
     Brain.query_transform := fun img g => ((img + g)%nat, S g);
     Brain.key_transform := fun img g => ((img * g)%nat, S g) |}.

Definition toy_processor : Brain.BrainProcessor :=
  {| Brain.root := "root";
     Brain.data_info :=
       [ {| Brain.RID := "a"; Brain.Conv := 0; Brain.MRI := Brain.Str "s1"; Brain.PET := Brain.NaN |};
         {| Brain.RID := "b"; Brain.Conv := 1; Brain.MRI := Brain.Str "s2"; Brain.PET := Brain.NaN |} ];
     Brain.u_data_info :=
       [ {| Brain.RID := "a"; Brain.Conv := -1; Brain.MRI := Brain.Str "s3"; Brain.PET := Brain.NaN |};
         {| Brain.RID := "c"; Brain.Conv := -1; Brain.MRI := Brain.Str "s4"; Brain.PET := Brain.NaN |} ];
     Brain.random_state := 2022;
     Brain.class_weight := None |}.

Definition toy_join (a b c : string) : string := (a ++ "/" ++ b ++ "/" ++ c)%string.

Definition toy_split (n_splits random_state : nat) (X : list string) (y : list Z)
  (groups : list string) : result (list (list nat * list nat)) :=
  Ok [([1%nat], [0%nat]); ([0%nat], [1%nat])].

Definition toy_class_weight (y : list Z) : result (list R) := Ok [].

(** ** Norms, runs and distributions *)


(** the conditions under which [evaluate] gets to the division: a
    network with parameters whose outputs, in eval mode, are matrices
    with [D >= 1] columns and a row per label of the batch, a memory
    loader that yields at least one batch and none empty, memory labels
    that are class indices, and no [k] above the number of memory
    entries *)
Definition well_formed_run {Input : Type}
  (forward : list Vec -> bool -> Input -> Mat) (self : KNNEvaluator)
  (memory_loader query_loader : DataLoader Input) (w : World Input) (D : nat) : Prop :=
  let mem := outputs forward (parameters (net w)) false (batches memory_loader) in
  let qry := outputs forward (parameters (net w)) false (batches query_loader) in
  parameters (net w) <> [] /\
  batches memory_loader <> [] /\
  (0 < D)%nat /\
  well_shaped D mem /\
  Forall (fun b => is_matrix (length (snd b)) D (fst b)) qry /\
  labels_in_range (num_classes self) (concat (map snd mem)) /\
  Forall (fun k => (k <= length (concat (map snd mem)))%nat) (num_neighbors self).

(** the number of samples the batches hold *)
Definition samples (qry : list (Mat * list Z)) : nat :=
  list_sum (map (fun b => length (snd b)) qry).

(** a vector of two probabilities *)
Definition is_distribution2 (v : Vec) : Prop :=
  exists a b, v = [a; b] /\ 0 <= a /\ 0 <= b /\ a + b = 1.

Definition two_entry_bank : Mat := [[1; 0]; [0; 1]].

Definition unit_forward (params : list Vec) (mode : bool) (x0 : unit) : Mat := [[1; 0]].

Definition unnormalised_forward (params : list Vec) (mode : bool) (x0 : unit) : Mat :=
  [[3; 4]].

Definition no_parameter_world : World unit :=
  {| net := {| parameters := []; training := true |};
     autograd := {| grad_enabled := true; graph := [] |} |}.

Definition empty_loader : DataLoader unit := {| batches := []; dataset_len := 0 |}.

Definition toy_table : list BrainMore.CsvRow :=
  [ {| BrainMore.row := {| Brain.RID := "a"; Brain.Conv := 0;
                           Brain.MRI := Brain.Str "s1"; Brain.PET := Brain.NaN |};
       BrainMore.IS_FILE := true; BrainMore.MCI := 1 |};
    {| BrainMore.row := {| Brain.RID := "b"; Brain.Conv := 1;
                           Brain.MRI := Brain.Str "s2"; Brain.PET := Brain.NaN |};
       BrainMore.IS_FILE := true; BrainMore.MCI := 1 |};
    {| BrainMore.row := {| Brain.RID := "a"; Brain.Conv := -1;
                           Brain.MRI := Brain.Str "s3"; Brain.PET := Brain.NaN |};
       BrainMore.IS_FILE := true; BrainMore.MCI := 1 |};
    {| BrainMore.row := {| Brain.RID := "c"; Brain.Conv := -1;
                           Brain.MRI := Brain.Str "s4"; Brain.PET := Brain.NaN |};
       BrainMore.IS_FILE := true; BrainMore.MCI := 1 |};
    {| BrainMore.row := {| Brain.RID := "d"; Brain.Conv := 1;
                           Brain.MRI := Brain.NaN; Brain.PET := Brain.Str "p5" |};
       BrainMore.IS_FILE := true; BrainMore.MCI := 1 |};
    {| BrainMore.row := {| Brain.RID := "e"; Brain.Conv := 0;
                           Brain.MRI := Brain.Str "s6"; Brain.PET := Brain.NaN |};
       BrainMore.IS_FILE := false; BrainMore.MCI := 0 |} ].

Definition toy_randint (hi : Z) (g : nat) : result nat * nat := (Ok 0%nat, S g).

Definition toy_beta (a : R) (g : nat) : result R * nat := (Ok (/ 2), S g).

Definition toy_mix (lam : R) (a b : nat) : result nat := Ok (a + b)%nat.

Definition toy_mixup : BrainMore.BrainMixUp nat nat :=
  {| BrainMore.mx_paths := [Brain.Str "root/template/FS7/s1.pkl";
                            Brain.Str "root/template/FS7/s2.pkl"];
     BrainMore.mx_labels := [1%Z; (-1)%Z];
     BrainMore.mx_transform := None;
     BrainMore.mx_alpha := 1 |}.

Definition three_class_mixup : BrainMore.BrainMixUp nat nat :=
  {| BrainMore.mx_paths := [Brain.Str "root/template/FS7/s1.pkl"];
     BrainMore.mx_labels := [2%Z];
     BrainMore.mx_transform := None;
     BrainMore.mx_alpha := 1 |}.

Definition moco_with_missing_file : Brain.BrainMoCo nat nat :=
  {| Brain.paths := [Brain.Str "root/template/FS7/s9.pkl"; Brain.NaN];
     Brain.labels := [0%Z; 1%Z];
     Brain.query_transform := fun img g => ((img + g)%nat, S g);
     Brain.key_transform := fun img g => ((img * g)%nat, S g) |}.

Definition toy_mix_item : BrainMore.MixItem nat :=
  {| BrainMore.mx_x := 9%nat;
     BrainMore.mx_x_mix := 16%nat;
     BrainMore.mx_y := [0; 1];
     BrainMore.mx_y_mix := BrainMore.mix_labels (/ 2) [0; 1] [0; 1];
     BrainMore.mx_idx := 1%nat;
     BrainMore.mx_idx_mix := 0%nat |}.

(** * Properties *)

(** ** The two sorts keep the promise of [TorchSort] *)

Section InsertionSort.

Variable before : R -> R -> bool.
Hypothesis before_true : forall vj vi, before vj vi = true -> vi >= vj.
Hypothesis before_false : forall vj vi, before vj vi = false -> vj >= vi.

Lemma insert_by_perm (l : list R) (i : nat) (s : list nat) :
  Permutation (insert_by before l i s) (i :: s).
Proof.
  induction s as [|j s IH]; simpl.
  - apply Permutation_refl.
  - destruct (before (nth j l 0) (nth i l 0)).
    + apply Permutation_refl.
    + apply perm_trans with (j :: i :: s).
      * now apply perm_skip.
      * apply perm_swap.
Qed.

Lemma fold_insert_perm (l : list R) (xs : list nat) :
  Permutation (fold_right (insert_by before l) [] xs) xs.
Proof.
  induction xs as [|a xs IH]; simpl.
  - apply perm_nil.
  - apply perm_trans with (a :: fold_right (insert_by before l) [] xs).
    + apply insert_by_perm.
    + now apply perm_skip.
Qed.

Lemma argsort_by_perm (l : list R) :
  Permutation (argsort_by before l) (seq 0 (length l)).
Proof.
  unfold argsort_by.
  apply perm_trans with (rev (seq 0 (length l))).
  - apply fold_insert_perm.
  - apply Permutation_sym, Permutation_rev.
Qed.

Lemma insert_by_sorted (l : list R) (i : nat) (s : list nat) :
  descending (take s l) -> descending (take (insert_by before l i s) l).
Proof.
  unfold descending, take.
  induction s as [|j s IH]; simpl; intros Hs.
  - constructor; constructor.
  - inversion Hs as [|? ? Hs' Hall]; subst.
    destruct (before (nth j l 0) (nth i l 0)) eqn:E; simpl.
    + apply before_true in E.
      constructor; [assumption|].
      constructor; [lra|].
      revert Hall. apply Forall_impl. intros; lra.
    + apply before_false in E.
      constructor; [now apply IH|].
      change (Forall (Rge (nth j l 0))
                (map (fun i0 => nth i0 l 0) (insert_by before l i s))).
      apply Forall_map.
      assert (Hp := insert_by_perm l i s).
      apply Permutation_sym in Hp.
      apply (Permutation_Forall Hp).
      constructor; [exact E|].
      exact (proj1 (Forall_map _ _ _) Hall).
Qed.

Lemma argsort_by_sorted (l : list R) : descending (take (argsort_by before l) l).
Proof.
  unfold argsort_by.
  induction (rev (seq 0 (length l))) as [|a xs IH]; simpl.
  - constructor.
  - now apply insert_by_sorted.
Qed.

End InsertionSort.

Lemma Rltb_true (vj vi : R) : Rltb vj vi = true -> vi >= vj.
Proof. unfold Rltb. destruct (Rlt_dec vj vi); [lra | discriminate]. Qed.

Lemma Rltb_false (vj vi : R) : Rltb vj vi = false -> vj >= vi.
Proof. unfold Rltb. destruct (Rlt_dec vj vi); [discriminate | lra]. Qed.

Lemma Rleb_true (vj vi : R) : Rleb vj vi = true -> vi >= vj.
Proof. unfold Rleb. destruct (Rle_dec vj vi); [lra | discriminate]. Qed.

Lemma Rleb_false (vj vi : R) : Rleb vj vi = false -> vj >= vi.
Proof. unfold Rleb. destruct (Rle_dec vj vi); [discriminate | lra]. Qed.

Definition stable_sort : TorchSort := {|
  argsort_desc := stable_argsort;
  argsort_desc_perm := argsort_by_perm Rltb;
  argsort_desc_sorted := argsort_by_sorted Rltb Rltb_true Rltb_false
|}.

Definition reversing_sort : TorchSort := {|
  argsort_desc := reversing_argsort;
  argsort_desc_perm := argsort_by_perm Rleb;
  argsort_desc_sorted := argsort_by_sorted Rleb Rleb_true Rleb_false
|}.

(** ** Lists and the error monad *)

Lemma mapM_ok {A B : Type} (f : A -> result B) (g : A -> B) (l : list A) :
  (forall a, In a l -> f a = Ok (g a)) -> mapM f l = Ok (map g l).
Proof.
  induction l as [|a l IH]; simpl; intros H.
  - reflexivity.
  - rewrite (H a (or_introl eq_refl)). simpl.
    rewrite IH by (intros; apply H; now right). reflexivity.
Qed.

Lemma map2_map_same {A B C D : Type} (f : B -> C -> D) (g : A -> B) (h : A -> C)
  (l : list A) :
  map2 f (map g l) (map h l) = map (fun a => f (g a) (h a)) l.
Proof.
  induction l as [|a l IH]; simpl; [reflexivity | now rewrite IH].
Qed.

Lemma map2_length {A B C : Type} (f : A -> B -> C) (l : list A) (l' : list B) :
  length (map2 f l l') = Nat.min (length l) (length l').
Proof.
  revert l'. induction l as [|a l IH]; intros [|b l']; simpl; auto.
Qed.

Lemma combine_repeat {A B : Type} (a : A) (l : list B) :
  combine (repeat a (length l)) l = map (fun b => (a, b)) l.
Proof.
  induction l as [|b l IH]; simpl; [reflexivity | now rewrite IH].
Qed.

Lemma In_firstn_In {A : Type} (n : nat) (l : list A) (a : A) :
  In a (firstn n l) -> In a l.
Proof.
  intros H. rewrite <- (firstn_skipn n l). apply in_or_app. now left.
Qed.

Lemma Rsum_app (l l' : list R) : Rsum (l ++ l') = Rsum l + Rsum l'.
Proof.
  induction l as [|a l IH]; simpl; [lra | rewrite IH; lra].
Qed.

Lemma StronglySorted_app_cross {A : Type} (P : A -> A -> Prop) (l l' : list A) :
  StronglySorted P (l ++ l') ->
  forall a b, In a l -> In b l' -> P a b.
Proof.
  induction l as [|h l IH]; simpl; intros Hs a b Ha Hb.
  - contradiction.
  - inversion Hs as [|? ? Hs' Hall]; subst.
    destruct Ha as [<- | Ha].
    + rewrite Forall_forall in Hall. apply Hall, in_or_app. now right.
    + now apply IH.
Qed.

(** ** What a sort of the library gives *)

Section SortFacts.

Context {sorter : TorchSort}.

Lemma argsort_desc_length (l : list R) : length (argsort_desc l) = length l.
Proof.
  rewrite (Permutation_length (argsort_desc_perm l)). apply length_seq.
Qed.

Lemma argsort_desc_In (l : list R) (i : nat) :
  In i (argsort_desc l) <-> (i < length l)%nat.
Proof.
  split; intros H.
  - apply (Permutation_in _ (argsort_desc_perm l)) in H.
    apply in_seq in H. lia.
  - apply (Permutation_in _ (Permutation_sym (argsort_desc_perm l))).
    apply in_seq. lia.
Qed.

Lemma argsort_desc_NoDup (l : list R) : NoDup (argsort_desc l).
Proof.
  apply (Permutation_NoDup (Permutation_sym (argsort_desc_perm l))).
  apply seq_NoDup.
Qed.

(** the first [k] indices of a sort are [k] entries of highest value *)
Lemma firstn_argsort_top_k (l : list R) (k : nat) :
  (k <= length l)%nat -> is_top_k l k (firstn k (argsort_desc l)).
Proof.
  intros Hk.
  assert (Hsplit := firstn_skipn k (argsort_desc l)).
  assert (Hnd := argsort_desc_NoDup l).
  assert (Hs := argsort_desc_sorted l).
  rewrite <- Hsplit in Hnd, Hs.
  unfold descending, take in Hs. rewrite map_app in Hs.
  repeat split.
  - now apply NoDup_app_remove_r in Hnd.
  - rewrite length_firstn, argsort_desc_length. lia.
  - intros i Hi. apply argsort_desc_In. rewrite <- Hsplit.
    apply in_or_app. now left.
  - intros i j Hi Hj Hnj.
    apply argsort_desc_In in Hj. rewrite <- Hsplit in Hj.
    apply in_app_or in Hj. destruct Hj as [Hj | Hj]; [contradiction|].
    apply Rge_le.
    apply (StronglySorted_app_cross _ _ _ Hs).
    + now apply in_map with (f := fun i => nth i l 0).
    + now apply in_map with (f := fun i => nth i l 0).
Qed.

(** the first index of a sort is the place of a maximum *)
Lemma argsort_desc_head_max (l : list R) :
  (0 < length l)%nat ->
  (nth 0 (argsort_desc l) 0 < length l)%nat /\
  forall j, (j < length l)%nat -> nth j l 0 <= nth (nth 0 (argsort_desc l) 0%nat) l 0.
Proof.
  intros Hl.
  assert (Hlen := argsort_desc_length l).
  assert (Hs := argsort_desc_sorted l).
  assert (Hin := argsort_desc_In l).
  destruct (argsort_desc l) as [|c rest]; simpl in *; [lia|].
  split.
  - apply Hin. now left.
  - intros j Hj. apply Hin in Hj.
    inversion Hs as [|? ? _ Hall]; subst.
    destruct Hj as [<- | Hj]; [lra|].
    rewrite Forall_forall in Hall.
    apply Rge_le, Hall.
    now apply in_map with (f := fun i => nth i l 0).
Qed.

End SortFacts.

(** ** The tensor operations of [predict] on well-shaped inputs *)

Lemma einsum_bf_fm_ok (query memory_bank : Mat) :
  Forall (fun q => length q = nrows memory_bank) query ->
  einsum_bf_fm query memory_bank = Ok (map (fun q => cos_sims q memory_bank) query).
Proof.
  intros H. unfold einsum_bf_fm.
  replace (forallb _ query) with true; [reflexivity|].
  symmetry. apply forallb_forall. intros q Hq.
  rewrite Forall_forall in H. apply Nat.eqb_eq. now apply H.
Qed.

Lemma cos_sims_length (q : Vec) (memory_bank : Mat) :
  length (cos_sims q memory_bank) = ncols memory_bank.
Proof. unfold cos_sims. now rewrite length_map, length_seq. Qed.

Lemma gather_row_ok (labels : list Z) (ix : list nat) :
  Forall (fun i => (i < length labels)%nat) ix ->
  mapM (fun i => match nth_error labels i with
                 | Some y => Ok y
                 | None => Raise IndexError
                 end) ix
  = Ok (map (fun i => nth i labels 0%Z) ix).
Proof.
  intros H. apply mapM_ok. intros i Hi.
  rewrite Forall_forall in H. specialize (H i Hi).
  destruct (nth_error labels i) eqn:E.
  - now rewrite (nth_error_nth _ _ _ E).
  - apply nth_error_None in E. lia.
Qed.

Lemma gather_ok (labels : list Z) (index : list (list nat)) :
  Forall (Forall (fun i => (i < length labels)%nat)) index ->
  gather (repeat labels (length index)) index
  = Ok (map (map (fun i => nth i labels 0%Z)) index).
Proof.
  intros H. unfold gather.
  rewrite repeat_length, Nat.leb_refl, combine_repeat.
  induction H as [|ix index Hix H IH]; [reflexivity|].
  cbn [mapM map fst snd].
  rewrite (gather_row_ok _ _ Hix). cbn [bind].
  rewrite IH. reflexivity.
Qed.

Lemma scatter_ok (C : nat) (index : list Z) :
  labels_in_range C index ->
  scatter_ (zeros (length index) C) index = Ok (map (one_hot_row C) index).
Proof.
  unfold labels_in_range, zeros.
  induction 1 as [|i index Hi H IH]; [reflexivity|].
  cbn [length repeat scatter_ map].
  rewrite repeat_length.
  replace (0 <=? i)%Z with true by (symmetry; apply Z.leb_le; lia).
  replace (Z.to_nat i <? C)%nat with true by (symmetry; apply Nat.ltb_lt; lia).
  cbn [andb]. rewrite IH. reflexivity.
Qed.

Lemma scatter_prefix_ok (C : nat) (index : list Z) (extra : nat) :
  labels_in_range C index ->
  scatter_ (zeros (length index + extra) C) index
  = Ok (map (one_hot_row C) index ++ zeros extra C).
Proof.
  unfold labels_in_range, zeros.
  induction 1 as [|i index Hi H IH]; [simpl; reflexivity|].
  cbn [length repeat scatter_ map Nat.add app].
  rewrite repeat_length.
  replace (0 <=? i)%Z with true by (symmetry; apply Z.leb_le; lia).
  replace (Z.to_nat i <? C)%nat with true by (symmetry; apply Nat.ltb_lt; lia).
  cbn [andb]. rewrite IH. reflexivity.
Qed.

Lemma skipn_exact_app {A : Type} (r l : list A) : skipn (length r) (r ++ l) = l.
Proof.
  rewrite skipn_app, skipn_all, Nat.sub_diag. reflexivity.
Qed.

Lemma firstn_exact_app {A : Type} (r l : list A) : firstn (length r) (r ++ l) = r.
Proof.
  rewrite firstn_app, firstn_all, Nat.sub_diag. simpl. apply app_nil_r.
Qed.

Lemma view3_concat (k : nat) (ls : list Mat) :
  Forall (fun g => length g = k) ls ->
  view3 (length ls) k (concat ls) = ls.
Proof.
  unfold view3.
  induction 1 as [|g ls Hg H IH]; [reflexivity|].
  cbn [length seq map concat].
  f_equal.
  - cbn [Nat.mul skipn]. rewrite <- Hg. apply firstn_exact_app.
  - rewrite <- seq_shift, map_map.
    rewrite <- IH at 2. apply map_ext. intros b.
    f_equal.
    replace (S b * k)%nat with (b * k + length g)%nat by (simpl; lia).
    rewrite <- skipn_skipn, skipn_exact_app. reflexivity.
Qed.

Lemma concat_map_map {A B : Type} (f : A -> B) (ls : list (list A)) :
  concat (map (map f) ls) = map f (concat ls).
Proof. symmetry. apply concat_map. Qed.

Lemma length_concat_const {A : Type} (k : nat) (ls : list (list A)) :
  Forall (fun g => length g = k) ls -> length (concat ls) = (length ls * k)%nat.
Proof.
  induction 1 as [|g ls Hg H IH]; [reflexivity|].
  cbn [concat length]. rewrite length_app, IH, Hg. simpl. reflexivity.
Qed.

(** ** [predict] row by row *)

Section PredictFacts.

Context {sorter : TorchSort}.

Lemma firstn_argsort_in_range (k : nat) (sims : list R) (n : nat) :
  length sims = n ->
  Forall (fun i => (i < n)%nat) (firstn k (argsort_desc sims)).
Proof.
  intros <-. apply Forall_forall. intros i Hi.
  apply argsort_desc_In. apply (In_firstn_In _ _ _ Hi).
Qed.

Lemma firstn_argsort_length (k : nat) (sims : list R) :
  (k <= length sims)%nat -> length (firstn k (argsort_desc sims)) = k.
Proof.
  intros H. rewrite length_firstn, argsort_desc_length. lia.
Qed.

(** On a batch whose rows have the length of the memory bank's columns,
    with a label in range per memory entry and [k] at most the number
    of entries, [predict] returns, and the ranking of each query is
    [predict_row] of that query alone. *)
Lemma predict_rows (self : KNNEvaluator) (k : nat) (query memory_bank : Mat)
  (memory_labels : list Z) :
  Forall (fun q => length q = nrows memory_bank) query ->
  length memory_labels = ncols memory_bank ->
  labels_in_range (num_classes self) memory_labels ->
  (k <= ncols memory_bank)%nat ->
  predict self k query memory_bank memory_labels
  = Ok (map (predict_row self k memory_bank memory_labels) query).
Proof.
  intros Hq Hl Hr Hk.
  unfold predict.
  rewrite (einsum_bf_fm_ok _ _ Hq). cbn [bind].
  rewrite !map_map.
  set (idx := map (fun q => firstn k (argsort_desc (cos_sims q memory_bank))) query).
  assert (Hidx_len : length idx = length query) by (unfold idx; apply length_map).
  assert (Hidx_rng : Forall (Forall (fun i => (i < length memory_labels)%nat)) idx).
  { unfold idx. apply Forall_map, Forall_forall. intros q _.
    apply firstn_argsort_in_range. now rewrite cos_sims_length. }
  assert (Hidx_k : Forall (fun N => length N = k) idx).
  { unfold idx. apply Forall_map, Forall_forall. intros q _.
    apply firstn_argsort_length. now rewrite cos_sims_length. }
  rewrite <- Hidx_len at 1.
  rewrite (gather_ok _ _ Hidx_rng). cbn [bind].
  set (lab := map (map (fun i => nth i memory_labels 0%Z)) idx).
  assert (Hlab_k : Forall (fun L => length L = k) lab).
  { unfold lab. apply Forall_map. revert Hidx_k. apply Forall_impl.
    intros N HN. now rewrite length_map. }
  assert (Hlab_len : length lab = length query).
  { unfold lab. now rewrite length_map. }
  assert (Hflat : length (concat lab) = (length query * k)%nat).
  { rewrite (length_concat_const k _ Hlab_k). now rewrite Hlab_len. }
  rewrite <- Hflat.
  rewrite scatter_ok.
  2:{ unfold labels_in_range, lab. apply Forall_concat.
      apply Forall_map. revert Hidx_rng. apply Forall_impl.
      intros N HN. apply Forall_map. revert HN. apply Forall_impl.
      intros i Hi. unfold labels_in_range in Hr. rewrite Forall_forall in Hr.
      apply Hr. now apply nth_In. }
  cbn [bind].
  rewrite <- concat_map_map.
  replace (length query) with (length (map (map (one_hot_row (num_classes self))) lab))
    by (now rewrite length_map).
  rewrite view3_concat.
  2:{ apply Forall_map. revert Hlab_k. apply Forall_impl.
      intros L HL. now rewrite length_map. }
  unfold mul_unsqueeze.
  rewrite (Nat.min_l _ _ Hk), Nat.eqb_refl. cbn [bind].
  f_equal.
  unfold lab, idx, sum_dim1.
  rewrite !map_map.
  rewrite (map2_map_same _ _ _ query).
  rewrite !map_map.
  apply map_ext. intros q.
  unfold predict_row, row_votes, take.
  rewrite !map_map, !firstn_map, !map_map.
  reflexivity.
Qed.

Lemma predicted_class_row (self : KNNEvaluator) (k : nat) (memory_bank : Mat)
  (memory_labels : list Z) (q : Vec) :
  length q = nrows memory_bank ->
  length memory_labels = ncols memory_bank ->
  labels_in_range (num_classes self) memory_labels ->
  (k <= ncols memory_bank)%nat ->
  predicted_class self k memory_bank memory_labels q
  = nth 0 (predict_row self k memory_bank memory_labels q) 0%nat.
Proof.
  intros Hq Hl Hr Hk. unfold predicted_class.
  rewrite predict_rows; try assumption.
  - reflexivity.
  - constructor; [assumption | constructor].
Qed.

End PredictFacts.

(** ** The one-hot sum is the weighted vote *)

Lemma set_nth_length (i : nat) (v : R) (row : Vec) :
  length (set_nth i v row) = length row.
Proof.
  revert i. induction row as [|x row IH]; intros [|i]; simpl; auto.
Qed.

Lemma nth_set_nth (i c : nat) (v : R) (row : Vec) :
  (i < length row)%nat ->
  nth c (set_nth i v row) 0 = if (c =? i)%nat then v else nth c row 0.
Proof.
  revert i c. induction row as [|x row IH]; intros i c Hi; simpl in Hi; [lia|].
  destruct i as [|i], c as [|c]; simpl; try reflexivity.
  apply IH. lia.
Qed.

Lemma nth_repeat_0 (c n : nat) : nth c (repeat 0 n) 0 = 0.
Proof.
  revert c. induction n as [|n IH]; intros [|c]; simpl; auto.
Qed.

Lemma one_hot_row_length (C : nat) (l : Z) : length (one_hot_row C l) = C.
Proof. unfold one_hot_row. now rewrite set_nth_length, repeat_length. Qed.

Lemma nth_one_hot_row (C c : nat) (l : Z) :
  (0 <= l < Z.of_nat C)%Z ->
  nth c (one_hot_row C l) 0 = if label_eqb l c then 1 else 0.
Proof.
  intros Hl. unfold one_hot_row, label_eqb.
  rewrite nth_set_nth by (rewrite repeat_length; lia).
  rewrite nth_repeat_0.
  destruct (Nat.eqb_spec c (Z.to_nat l)) as [E | E];
    destruct (Z.eqb_spec l (Z.of_nat c)) as [E' | E']; try reflexivity; exfalso; lia.
Qed.

Lemma nth_map_in_range {A : Type} (f : A -> R) (l : list A) (c : nat) (d : A) :
  (c < length l)%nat -> nth c (map f l) 0 = f (nth c l d).
Proof.
  intros H. rewrite (nth_indep _ 0 (f d)) by (now rewrite length_map).
  apply map_nth.
Qed.

Lemma Rsum_indicator {A : Type} (b : A -> bool) (w : A -> R) (N : list A) :
  Rsum (map (fun i => (if b i then 1 else 0) * w i) N) = Rsum (map w (filter b N)).
Proof.
  induction N as [|i N IH]; simpl; [reflexivity|].
  rewrite IH. destruct (b i); simpl; lra.
Qed.

Section VoteFacts.

Context {sorter : TorchSort}.

Lemma row_votes_length (self : KNNEvaluator) (k : nat) (labels : list Z) (sims : list R) :
  length (row_votes self k labels sims) = num_classes self.
Proof. unfold row_votes. now rewrite length_map, length_seq. Qed.

Lemma row_votes_nth (self : KNNEvaluator) (k : nat) (labels : list Z)
  (sims : list R) (c : nat) :
  labels_in_range (num_classes self) labels ->
  length sims = length labels ->
  (c < num_classes self)%nat ->
  nth c (row_votes self k labels sims) 0
  = weighted_vote (temperature self) sims labels (firstn k (argsort_desc sims)) c.
Proof.
  intros Hr Hlen Hc.
  unfold row_votes, weighted_vote.
  rewrite (nth_map_in_range _ _ _ 0%nat) by (now rewrite length_seq).
  rewrite seq_nth by assumption. cbn [Nat.add].
  assert (HN := firstn_argsort_in_range k sims _ Hlen).
  set (N := firstn k (argsort_desc sims)) in *.
  unfold take, col. rewrite !map_map, map2_map_same, map_map.
  rewrite <- Rsum_indicator.
  f_equal. apply map_ext_in. intros i Hi.
  rewrite Forall_forall in HN. specialize (HN i Hi).
  rewrite (nth_map_in_range _ _ _ 0) by (now rewrite one_hot_row_length).
  rewrite nth_one_hot_row; [reflexivity|].
  unfold labels_in_range in Hr. rewrite Forall_forall in Hr.
  apply Hr. now apply nth_In.
Qed.

End VoteFacts.

(** ** Claims about [KNNEvaluator.predict] *)

Section PredictClaims.

Context {sorter : TorchSort}.

(** C1.  On a batch of queries [query], a memory bank with [M] columns,
    [M] labels that are class indices and [1 <= k <= M], [predict]
    returns a ranking per query, and the first entry of each ranking
    is an argmax, over the classes, of the sum of [exp(similarity / T)]
    over those of the [k] most similar memory entries that carry the
    class as their label. *)
Theorem predict_is_argmax_of_weighted_vote (self : KNNEvaluator) (k : nat)
  (query memory_bank : Mat) (memory_labels : list Z) :
  Forall (fun q => length q = nrows memory_bank) query ->
  length memory_labels = ncols memory_bank ->
  labels_in_range (num_classes self) memory_labels ->
  (1 <= k <= ncols memory_bank)%nat ->
  exists ranking,
    predict self k query memory_bank memory_labels = Ok ranking /\
    length ranking = length query /\
    forall b q, nth_error query b = Some q ->
      exists r N,
        nth_error ranking b = Some r /\
        is_top_k (cos_sims q memory_bank) k N /\
        is_argmax (weighted_vote (temperature self) (cos_sims q memory_bank)
                                 memory_labels N)
                  (num_classes self) (nth 0 r 0%nat).
Proof.
  intros Hq Hl Hr [Hk1 Hk].
  exists (map (predict_row self k memory_bank memory_labels) query).
  split; [now apply predict_rows|].
  split; [apply length_map|].
  intros b q Hb.
  exists (predict_row self k memory_bank memory_labels q),
         (firstn k (argsort_desc (cos_sims q memory_bank))).
  split; [now rewrite nth_error_map, Hb|].
  split; [apply firstn_argsort_top_k; now rewrite cos_sims_length|].
  assert (HC : (0 < num_classes self)%nat).
  { destruct memory_labels as [|l ls]; [simpl in Hl; lia|].
    inversion Hr; subst. lia. }
  assert (Hlen : length (cos_sims q memory_bank) = length memory_labels)
    by (now rewrite cos_sims_length).
  unfold predict_row.
  set (votes := row_votes self k memory_labels (cos_sims q memory_bank)).
  assert (Hv : length votes = num_classes self) by apply row_votes_length.
  destruct (argsort_desc_head_max votes) as [Hh Hmax]; [lia|].
  rewrite Hv in Hh.
  split; [exact Hh|].
  intros c' Hc'.
  rewrite <- !row_votes_nth by assumption.
  apply Hmax. now rewrite Hv.
Qed.

(** C2, amended.  On a well-shaped batch, with [k] above the number
    [M >= 2] of memory entries, [predict] raises the error of mismatched
    shapes: the slice [[:, :k]] keeps [M] columns, every index into the
    memory labels and into the classes is in range, the one-hot tensor
    has [k] rows per query, and the product of shapes [(B, k, C)] and
    [(B, M, 1)] is refused. *)
Theorem predict_raises_when_k_exceeds_memory (self : KNNEvaluator) (k : nat)
  (query memory_bank : Mat) (memory_labels : list Z) :
  Forall (fun q => length q = nrows memory_bank) query ->
  length memory_labels = ncols memory_bank ->
  labels_in_range (num_classes self) memory_labels ->
  (2 <= ncols memory_bank)%nat ->
  (ncols memory_bank < k)%nat ->
  predict self k query memory_bank memory_labels = Raise ShapeError.
Proof.
  intros Hq Hl Hr HM Hk.
  unfold predict.
  rewrite (einsum_bf_fm_ok _ _ Hq). cbn [bind].
  rewrite !map_map.
  set (idx := map (fun q => firstn k (argsort_desc (cos_sims q memory_bank))) query).
  assert (Hidx_len : length idx = length query) by (unfold idx; apply length_map).
  assert (Hidx_rng : Forall (Forall (fun i => (i < length memory_labels)%nat)) idx).
  { unfold idx. apply Forall_map, Forall_forall. intros q _.
    apply firstn_argsort_in_range. now rewrite cos_sims_length. }
  assert (Hidx_M : Forall (fun N => length N = ncols memory_bank) idx).
  { unfold idx. apply Forall_map, Forall_forall. intros q _.
    rewrite length_firstn, argsort_desc_length, cos_sims_length. lia. }
  rewrite <- Hidx_len at 1.
  rewrite (gather_ok _ _ Hidx_rng). cbn [bind].
  set (lab := map (map (fun i => nth i memory_labels 0%Z)) idx).
  assert (Hflat : length (concat lab) = (length query * ncols memory_bank)%nat).
  { rewrite (length_concat_const (ncols memory_bank)).
    - unfold lab. now rewrite length_map, Hidx_len.
    - unfold lab. apply Forall_map. revert Hidx_M. apply Forall_impl.
      intros N HN. now rewrite length_map. }
  replace (length query * k)%nat
    with (length (concat lab) + length query * (k - ncols memory_bank))%nat
    by (rewrite Hflat; nia).
  rewrite scatter_prefix_ok.
  2:{ unfold labels_in_range, lab. apply Forall_concat.
      apply Forall_map. revert Hidx_rng. apply Forall_impl.
      intros N HN. apply Forall_map. revert HN. apply Forall_impl.
      intros i Hi. unfold labels_in_range in Hr. rewrite Forall_forall in Hr.
      apply Hr. now apply nth_In. }
  cbn [bind]. unfold mul_unsqueeze.
  rewrite Nat.min_r by lia.
  replace (k =? ncols memory_bank)%nat with false by (symmetry; apply Nat.eqb_neq; lia).
  replace (ncols memory_bank =? 1)%nat with false by (symmetry; apply Nat.eqb_neq; lia).
  replace (k =? 1)%nat with false by (symmetry; apply Nat.eqb_neq; lia).
  reflexivity.
Qed.

End PredictClaims.

(** ** The scenario of three neighbours *)

Lemma Rsum_perm (l l' : list R) : Permutation l l' -> Rsum l = Rsum l'.
Proof.
  induction 1 as [| x l l' _ IH | x y l | l l' l'' _ IH1 _ IH2]; simpl; lra.
Qed.

Lemma weighted_vote_perm (T : R) (sims : list R) (labels : list Z) (N N' : list nat)
  (c : nat) :
  Permutation N N' ->
  weighted_vote T sims labels N c = weighted_vote T sims labels N' c.
Proof.
  intros H. unfold weighted_vote. apply Rsum_perm.
  apply Permutation_map. clear -H.
  induction H as [| x l l' _ IH | x y l | l l' l'' _ IH1 _ IH2]; simpl.
  - apply perm_nil.
  - destruct (label_eqb _ _); [now apply perm_skip | assumption].
  - destruct (label_eqb (nth y labels 0%Z) c), (label_eqb (nth x labels 0%Z) c);
      try apply Permutation_refl.
    apply perm_swap.
  - now apply perm_trans with (filter (fun i => label_eqb (nth i labels 0%Z) c) l').
Qed.

Lemma exp_div_le (T x y : R) : 0 < T -> x <= y -> exp (x / T) <= exp (y / T).
Proof.
  intros HT Hxy.
  assert (H : x / T <= y / T).
  { unfold Rdiv. apply Rmult_le_compat_r; [|assumption].
    left. now apply Rinv_0_lt_compat. }
  destruct H as [H | H].
  - left. now apply exp_increasing.
  - rewrite H. right. reflexivity.
Qed.

Section Scenario.

Context {sorter : TorchSort}.

(** the three neighbours of highest similarity, when the fourth entry
    is strictly less similar than the other three *)
Lemma top_3_of_4 (sims : list R) (a b c d : nat) (N : list nat) :
  length sims = 4%nat ->
  Permutation [a; b; c; d] [0; 1; 2; 3]%nat ->
  nth d sims 0 < nth a sims 0 ->
  nth d sims 0 < nth b sims 0 ->
  nth d sims 0 < nth c sims 0 ->
  is_top_k sims 3 N ->
  Permutation N [a; b; c].
Proof.
  intros Hlen Hp Ha Hb Hc (Hnd & HlenN & Hrange & Htop).
  assert (Hnd4 : NoDup [a; b; c; d]).
  { apply (Permutation_NoDup (Permutation_sym Hp)).
    repeat constructor; simpl; intuition lia. }
  assert (Hin4 : forall i, (i < 4)%nat -> In i [a; b; c; d]).
  { intros i Hi. apply (Permutation_in _ (Permutation_sym Hp)). simpl. lia. }
  assert (Hlt4 : forall i, In i [a; b; c; d] -> (i < 4)%nat).
  { intros i Hi. apply (Permutation_in _ Hp) in Hi. simpl in Hi. lia. }
  assert (Hd : ~ In d N).
  { intros Hd.
    assert (Hout : forall x, In x [a; b; c] -> nth d sims 0 < nth x sims 0 -> In x N).
    { intros x Hx Hlt.
      destruct (in_dec Nat.eq_dec x N) as [Hin | Hnin]; [assumption|].
      exfalso.
      assert (Hle := Htop d x Hd).
      rewrite Hlen in Hle.
      specialize (Hle (Hlt4 x ltac:(simpl in *; tauto)) Hnin). lra. }
    assert (Hincl : incl [a; b; c; d] N).
    { intros x [<- | [<- | [<- | [<- | []]]]].
      - apply Hout; simpl; auto.
      - apply Hout; simpl; auto.
      - apply Hout; simpl; auto.
      - assumption. }
    apply (NoDup_incl_length Hnd4) in Hincl. simpl in Hincl. lia. }
  apply NoDup_Permutation_bis; [assumption | simpl; lia |].
  intros x Hx.
  assert (Hx4 : In x [a; b; c; d]).
  { apply Hin4. rewrite <- Hlen. now apply Hrange. }
  simpl in Hx4. simpl.
  destruct Hx4 as [<- | [<- | [<- | [<- | []]]]]; auto.
Qed.

(** C7.  A memory bank of four entries and a query whose three nearest
    entries are [a] and [b], labelled 0, and [c], labelled 1, with [a]
    and [b] at least as close as [c] and the fourth entry [d] farther
    than [c]: with [k = 3] and a positive temperature [predict] returns
    one ranking, of all the classes, and class 0 is the first of it: the
    class predicted is 0.  (Neither unit norm nor dimension two is
    needed.) *)
Theorem predict_scenario_three_neighbours (self : KNNEvaluator) (q : Vec)
  (memory_bank : Mat) (memory_labels : list Z) (a b c d : nat) :
  0 < temperature self ->
  length q = nrows memory_bank ->
  ncols memory_bank = 4%nat ->
  length memory_labels = 4%nat ->
  labels_in_range (num_classes self) memory_labels ->
  Permutation [a; b; c; d] [0; 1; 2; 3]%nat ->
  nth a memory_labels 0%Z = 0%Z ->
  nth b memory_labels 0%Z = 0%Z ->
  nth c memory_labels 0%Z = 1%Z ->
  nth c (cos_sims q memory_bank) 0 <= nth a (cos_sims q memory_bank) 0 ->
  nth c (cos_sims q memory_bank) 0 <= nth b (cos_sims q memory_bank) 0 ->
  nth d (cos_sims q memory_bank) 0 < nth c (cos_sims q memory_bank) 0 ->
  exists r, predict self 3 [q] memory_bank memory_labels = Ok [r] /\
            length r = num_classes self /\
            hd_error r = Some 0%nat.
Proof.
  intros HT Hq HM Hl Hr Hp La Lb Lc Sa Sb Sd.
  exists (predict_row self 3 memory_bank memory_labels q).
  split.
  { rewrite predict_rows; try assumption; try lia.
    - reflexivity.
    - constructor; [assumption | constructor]. }
  set (sims := cos_sims q memory_bank) in *.
  assert (Hsl : length sims = 4%nat) by (unfold sims; now rewrite cos_sims_length).
  assert (HC : (0 < num_classes self)%nat).
  { destruct memory_labels as [|l ls]; [discriminate|]. inversion Hr; subst. lia. }
  unfold predict_row. fold sims.
  set (votes := row_votes self 3 memory_labels sims).
  assert (Hv : length votes = num_classes self) by apply row_votes_length.
  assert (HN : Permutation (firstn 3 (argsort_desc sims)) [a; b; c]).
  { apply (top_3_of_4 sims a b c d); try assumption; try lra.
    apply firstn_argsort_top_k. lia. }
  assert (Hvote : forall c', (c' < num_classes self)%nat ->
            nth c' votes 0
            = weighted_vote (temperature self) sims memory_labels [a; b; c] c').
  { intros c' Hc'. unfold votes.
    rewrite row_votes_nth by (assumption || lia).
    now apply weighted_vote_perm. }
  assert (Hlen : length (argsort_desc votes) = num_classes self)
    by (now rewrite argsort_desc_length).
  split; [exact Hlen|].
  cut (nth 0 (argsort_desc votes) 0%nat = 0%nat).
  { destruct (argsort_desc votes) as [|c0 rest]; [simpl in Hlen; lia|].
    simpl. intros ->. reflexivity. }
  clear Hlen.
  destruct (argsort_desc_head_max votes) as [Hh Hmax]; [lia|].
  rewrite Hv in Hh.
  set (h := nth 0 (argsort_desc votes) 0%nat) in *.
  destruct (Nat.eq_dec h 0) as [E | E]; [exact E | exfalso].
  assert (H0 := Hmax 0%nat ltac:(lia)).
  rewrite (Hvote 0%nat HC), (Hvote h Hh) in H0.
  unfold weighted_vote in H0. cbn [filter] in H0.
  rewrite La, Lb, Lc in H0.
  assert (Ea := exp_div_le (temperature self) _ _ HT Sa).
  assert (Pb := exp_pos (nth b sims 0 / temperature self)).
  assert (Pc := exp_pos (nth c sims 0 / temperature self)).
  unfold label_eqb in H0.
  destruct (Z.eqb_spec 0 (Z.of_nat h)) as [E0 | _]; [lia|].
  change (0 =? Z.of_nat 0)%Z with true in H0.
  change (1 =? Z.of_nat 0)%Z with false in H0.
  destruct (1 =? Z.of_nat h)%Z; cbn [map Rsum fold_right] in H0; lra.
Qed.

End Scenario.

(** ** Ties *)

Lemma insert_stable (l : list R) (i : nat) (s : list nat) :
  StronglySorted (above l) s ->
  Forall (fun j => (j < i)%nat) s ->
  StronglySorted (above l) (insert_by Rltb l i s).
Proof.
  induction s as [|j s IH]; simpl; intros Hs Hlt.
  - constructor; constructor.
  - inversion Hs as [|? ? Hs' Hall]; subst.
    inversion Hlt as [|? ? Hj Hlt']; subst.
    unfold Rltb at 1.
    destruct (Rlt_dec (nth j l 0) (nth i l 0)) as [Hji | Hji].
    + constructor; [assumption|].
      constructor; [left; lra|].
      revert Hall. apply Forall_impl. intros r [Hr | [Hr _]]; left; lra.
    + constructor; [now apply IH|].
      apply (Permutation_Forall (Permutation_sym (insert_by_perm Rltb l i s))).
      constructor; [|assumption].
      destruct (Rle_lt_or_eq_dec (nth i l 0) (nth j l 0)) as [H | H]; [lra | |].
      * left. lra.
      * right. split; [now symmetry | assumption].
Qed.

Lemma stable_prefix (l : list R) (n : nat) :
  StronglySorted (above l) (fold_right (insert_by Rltb l) [] (rev (seq 0 n))) /\
  Forall (fun j => (j < n)%nat) (fold_right (insert_by Rltb l) [] (rev (seq 0 n))).
Proof.
  induction n as [|n [IHs IHl]].
  - simpl. split; constructor.
  - rewrite seq_S, rev_app_distr. cbn [rev app fold_right Nat.add].
    split.
    + now apply insert_stable.
    + apply (Permutation_Forall (Permutation_sym (insert_by_perm Rltb l n _))).
      constructor; [lia|].
      revert IHl. apply Forall_impl. intros; lia.
Qed.

(** the head of the stable sort is the lowest index of a maximum *)
Lemma stable_argsort_head (l : list R) (j : nat) :
  (j < length l)%nat ->
  j <> nth 0 (stable_argsort l) 0%nat ->
  above l (nth 0 (stable_argsort l) 0%nat) j.
Proof.
  intros Hj Hne.
  assert (Hin : In j (stable_argsort l)).
  { apply (Permutation_in _ (Permutation_sym (argsort_by_perm Rltb l))).
    apply in_seq. lia. }
  destruct (stable_prefix l (length l)) as [Hs _].
  fold (argsort_by Rltb l) in Hs. fold (stable_argsort l) in Hs.
  destruct (stable_argsort l) as [|h rest]; [contradiction|].
  simpl in *.
  inversion Hs as [|? ? _ Hall]; subst.
  destruct Hin as [-> | Hin]; [contradiction|].
  rewrite Forall_forall in Hall. now apply Hall.
Qed.

(** a sort that reverses ties puts the second of two equal values first *)
Lemma reversing_argsort_pair (x y : R) :
  x <= y -> reversing_argsort [x; y] = [1; 0]%nat.
Proof.
  intros H. unfold reversing_argsort, argsort_by. simpl.
  unfold Rleb. destruct (Rle_dec x y); [reflexivity | contradiction].
Qed.

(** C3, amended.  When the library's sort keeps equal values in their
    order, the class predicted is an argmax of the weighted vote and,
    among the classes that tie for the maximum, the one of lowest
    index. *)
Theorem stable_predict_lowest_index_wins (self : KNNEvaluator) (k : nat)
  (query memory_bank : Mat) (memory_labels : list Z) :
  Forall (fun q => length q = nrows memory_bank) query ->
  length memory_labels = ncols memory_bank ->
  labels_in_range (num_classes self) memory_labels ->
  (1 <= k <= ncols memory_bank)%nat ->
  exists ranking,
    predict (sorter := stable_sort) self k query memory_bank memory_labels = Ok ranking /\
    forall b q, nth_error query b = Some q ->
      exists r,
        nth_error ranking b = Some r /\
        let sims := cos_sims q memory_bank in
        let vote := weighted_vote (temperature self) sims memory_labels
                                  (firstn k (stable_argsort sims)) in
        is_argmax vote (num_classes self) (nth 0 r 0%nat) /\
        forall c, (c < num_classes self)%nat ->
                  vote c = vote (nth 0 r 0%nat) -> (nth 0 r 0 <= c)%nat.
Proof.
  intros Hq Hl Hr [Hk1 Hk].
  exists (map (predict_row (sorter := stable_sort) self k memory_bank memory_labels) query).
  split; [now apply predict_rows|].
  intros b q Hb.
  exists (predict_row (sorter := stable_sort) self k memory_bank memory_labels q).
  split; [now rewrite nth_error_map, Hb|].
  assert (HC : (0 < num_classes self)%nat).
  { destruct memory_labels as [|l ls]; [simpl in Hl; lia|].
    inversion Hr; subst. lia. }
  assert (Hlen : length (cos_sims q memory_bank) = length memory_labels)
    by (now rewrite cos_sims_length).
  cbv zeta. unfold predict_row.
  set (votes := row_votes (sorter := stable_sort) self k memory_labels
                          (cos_sims q memory_bank)).
  assert (Hv : length votes = num_classes self)
    by apply (row_votes_length (sorter := stable_sort)).
  assert (Hvote : forall c, (c < num_classes self)%nat ->
            weighted_vote (temperature self) (cos_sims q memory_bank) memory_labels
                          (firstn k (stable_argsort (cos_sims q memory_bank))) c
            = nth c votes 0).
  { intros c Hc. symmetry.
    now apply (row_votes_nth (sorter := stable_sort)). }
  destruct (argsort_desc_head_max (sorter := stable_sort) votes) as [Hh Hmax]; [lia|].
  rewrite Hv in Hh.
  change (@argsort_desc stable_sort votes) with (stable_argsort votes) in *.
  split; [split|].
  - exact Hh.
  - intros c' Hc'. rewrite !Hvote by assumption. apply Hmax. now rewrite Hv.
  - intros c Hc Heq.
    rewrite !Hvote in Heq by assumption.
    destruct (Nat.eq_dec c (nth 0 (stable_argsort votes) 0%nat)) as [-> | Hne]; [lia|].
    destruct (stable_argsort_head votes c) as [Hgt | [_ Hlt]]; try lia; try assumption.
    lra.
Qed.

(** C3, as stated, fails: one query, two memory entries equal to it with
    labels 0 and 1, [k = 2].  Both classes get the same vote, and a sort
    of the library that puts the later of two equal values first makes
    [predict] answer class 1. *)
Lemma reversing_sort_predicts_higher_index :
  weighted_vote default_temperature (cos_sims [1] [[1; 1]]) [0; 1]%Z [0; 1]%nat 0
  = weighted_vote default_temperature (cos_sims [1] [[1; 1]]) [0; 1]%Z [0; 1]%nat 1 /\
  predict (sorter := reversing_sort) tie_evaluator 2 [[1]] [[1; 1]] [0; 1]%Z
  = Ok [[1; 0]%nat].
Proof.
  split.
  - reflexivity.
  - rewrite predict_rows.
    + cbn [map]. do 2 f_equal.
      unfold predict_row, row_votes.
      change (@argsort_desc reversing_sort) with reversing_argsort.
      assert (E : cos_sims [1] [[1; 1]] = [1 * 1 + 0; 1 * 1 + 0]) by reflexivity.
      rewrite E.
      rewrite (reversing_argsort_pair (1 * 1 + 0) (1 * 1 + 0)) by lra.
      cbn -[exp Rmult Rplus Rdiv reversing_argsort Pos.to_nat].
      change (Pos.to_nat 1) with 1%nat.
      cbn -[exp Rmult Rplus Rdiv reversing_argsort].
      apply reversing_argsort_pair. lra.
    + repeat constructor.
    + reflexivity.
    + repeat constructor; simpl; lia.
    + simpl. lia.
Qed.

Lemma stable_argsort_pair (x y : R) :
  y <= x -> stable_argsort [x; y] = [0; 1]%nat.
Proof.
  intros H. unfold stable_argsort, argsort_by. simpl.
  unfold Rltb. destruct (Rlt_dec x y); [lra | reflexivity].
Qed.

(** on the same input a stable sort answers class 0 *)
Example stable_sort_predicts_lower_index :
  predict (sorter := stable_sort) tie_evaluator 2 [[1]] [[1; 1]] [0; 1]%Z
  = Ok [[0; 1]%nat].
Proof.
  rewrite predict_rows.
  - cbn [map]. do 2 f_equal.
    unfold predict_row, row_votes.
    change (@argsort_desc stable_sort) with stable_argsort.
    assert (E : cos_sims [1] [[1; 1]] = [1 * 1 + 0; 1 * 1 + 0]) by reflexivity.
    rewrite E.
    rewrite (stable_argsort_pair (1 * 1 + 0) (1 * 1 + 0)) by lra.
    cbn -[exp Rmult Rplus Rdiv stable_argsort Pos.to_nat].
    change (Pos.to_nat 1) with 1%nat.
    cbn -[exp Rmult Rplus Rdiv stable_argsort].
    apply stable_argsort_pair. lra.
  - repeat constructor.
  - reflexivity.
  - repeat constructor; simpl; lia.
  - simpl. lia.
Qed.

(** C2, as stated, fails: with two memory entries [predict] answers for
    [k = 2] and raises for [k = 3]. *)
Lemma predict_fails_beyond_memory_size :
  is_ok (predict (sorter := stable_sort) tie_evaluator 2 [[1]] [[1; 1]] [0; 1]%Z) /\
  raises (predict (sorter := stable_sort) tie_evaluator 3 [[1]] [[1; 1]] [0; 1]%Z).
Proof.
  split.
  - eexists. apply predict_rows.
    + repeat constructor.
    + reflexivity.
    + repeat constructor; simpl; lia.
    + simpl. lia.
  - unfold raises, predict.
    destruct (einsum_bf_fm _ _) as [sim|e]; [|now exists e].
    cbn [bind].
    destruct (gather _ _) as [lab|e]; [|now exists e].
    cbn [bind].
    destruct (scatter_ _ _) as [oh|e]; [|now exists e].
    now exists ShapeError.
Qed.

Lemma stable_argsort_pair_lt (x y : R) :
  x < y -> stable_argsort [x; y] = [1; 0]%nat.
Proof.
  intros H. unfold stable_argsort, argsort_by. simpl.
  unfold Rltb. destruct (Rlt_dec x y); [reflexivity | lra].
Qed.

Lemma stable_argsort_single (x : R) : stable_argsort [x] = [0%nat].
Proof. reflexivity. Qed.

(** with a single memory entry and [k = 2] the product broadcasts
    instead of failing, and the one-hot rows of the two queries of a
    batch end up in the first query: the second query gets no vote at
    all, and its class is left to the order of equal values. *)
Example predict_single_memory_entry :
  predict (sorter := stable_sort) tie_evaluator 1 [[1]; [1]] [[1]] [1]%Z
  = Ok [[1; 0]; [1; 0]]%nat /\
  predict (sorter := stable_sort) tie_evaluator 2 [[1]; [1]] [[1]] [1]%Z
  = Ok [[1; 0]; [0; 1]]%nat.
Proof.
  assert (He := exp_pos ((1 * 1 + 0) / default_temperature)).
  split.
  - unfold predict.
    cbn -[exp Rmult Rplus Rdiv argsort_desc Pos.to_nat].
    change (@argsort_desc stable_sort) with stable_argsort.
    rewrite !stable_argsort_single.
    cbn -[exp Rmult Rplus Rdiv stable_argsort Pos.to_nat].
    change (Pos.to_nat 1) with 1%nat.
    cbn -[exp Rmult Rplus Rdiv stable_argsort].
    rewrite !stable_argsort_pair_lt by lra. reflexivity.
  - unfold predict.
    cbn -[exp Rmult Rplus Rdiv argsort_desc Pos.to_nat].
    change (@argsort_desc stable_sort) with stable_argsort.
    rewrite !stable_argsort_single.
    cbn -[exp Rmult Rplus Rdiv stable_argsort Pos.to_nat].
    change (Pos.to_nat 1) with 1%nat.
    cbn -[exp Rmult Rplus Rdiv stable_argsort].
    rewrite stable_argsort_pair_lt by lra.
    rewrite stable_argsort_pair by lra. reflexivity.
Qed.

(** *** The claims at concrete inputs *)

Lemma predict_is_argmax_of_weighted_vote_witness :
  labels_in_range 2 [0; 1]%Z /\
  is_ok (predict (sorter := stable_sort) tie_evaluator 2 [[1]] [[1; 1]] [0; 1]%Z).
Proof.
  assert (Hr : labels_in_range 2 [0; 1]%Z) by (repeat constructor; simpl; lia).
  split; [exact Hr|].
  destruct (predict_is_argmax_of_weighted_vote (sorter := stable_sort)
              tie_evaluator 2 [[1]] [[1; 1]] [0; 1]%Z) as [r [H _]].
  - repeat constructor.
  - reflexivity.
  - exact Hr.
  - simpl. lia.
  - exists r. exact H.
Defined.

Lemma predict_raises_when_k_exceeds_memory_witness :
  predict (sorter := reversing_sort) tie_evaluator 5
          [[1; 0]] [[1; 0; 1]; [0; 1; 0]] [0; 1; 0]%Z
  = Raise ShapeError.
Proof.
  apply (predict_raises_when_k_exceeds_memory (sorter := reversing_sort)).
  - repeat constructor.
  - reflexivity.
  - repeat constructor; simpl; lia.
  - simpl. lia.
  - simpl. lia.
Defined.

Lemma stable_predict_lowest_index_wins_witness :
  is_ok (predict (sorter := stable_sort) tie_evaluator 2 [[1]] [[1; 1]] [0; 1]%Z).
Proof.
  destruct (stable_predict_lowest_index_wins
              tie_evaluator 2 [[1]] [[1; 1]] [0; 1]%Z) as [r [H _]].
  - repeat constructor.
  - reflexivity.
  - repeat constructor; simpl; lia.
  - simpl. lia.
  - exists r. exact H.
Defined.

Lemma predict_scenario_three_neighbours_witness :
  exists r, predict (sorter := stable_sort) tie_evaluator 3 [[1; 0]]
                    scenario_bank scenario_labels = Ok [r] /\
            length r = num_classes tie_evaluator /\
            hd_error r = Some 0%nat.
Proof.
  apply (predict_scenario_three_neighbours (sorter := stable_sort)
           tie_evaluator [1; 0] scenario_bank scenario_labels 0 1 3 2).
  - unfold tie_evaluator, default_temperature. simpl. lra.
  - reflexivity.
  - reflexivity.
  - reflexivity.
  - repeat constructor; simpl; lia.
  - apply perm_skip, perm_skip, perm_swap.
  - reflexivity.
  - reflexivity.
  - reflexivity.
  - unfold cos_sims, dot, col. simpl. lra.
  - unfold cos_sims, dot, col. simpl. lra.
  - unfold cos_sims, dot, col. simpl. lra.
Defined.

(** ** Running [evaluate] *)

Section EvaluateFacts.

Context {sorter : TorchSort}.
Variable Input : Type.
Variable forward : list Vec -> bool -> Input -> Mat.

Lemma after_calls_nil (w : World Input) : after_calls [] w = w.
Proof.
  destruct w as [n [g gr]]. unfold after_calls. simpl.
  now destruct g.
Qed.

Lemma after_calls_app (xs ys : list Input) (w : World Input) :
  after_calls ys (after_calls xs w) = after_calls (xs ++ ys) w.
Proof.
  unfold after_calls. simpl.
  destruct (grad_enabled (autograd w)); [|reflexivity].
  now rewrite rev_app_distr, app_assoc.
Qed.

Lemma call_net_run (x0 : Input) (w : World Input) :
  call_net forward x0 w
  = (Ok (forward (parameters (net w)) (training (net w)) x0), after_calls [x0] w).
Proof. reflexivity. Qed.

Lemma extract_memory_run (bs : list (Batch Input)) (mb : list Mat)
  (ml : list (list Z)) (w : World Input) :
  extract_memory forward bs mb ml w
  = (Ok (mb ++ map (fun b => normalize (fst b))
                   (outputs forward (parameters (net w)) (training (net w)) bs),
         ml ++ map snd (outputs forward (parameters (net w)) (training (net w)) bs)),
     after_calls (map x bs) w).
Proof.
  revert mb ml w. induction bs as [|b bs IH]; intros mb ml w.
  - simpl. unfold ret. now rewrite !app_nil_r, after_calls_nil.
  - cbn [extract_memory]. unfold bindM. rewrite call_net_run.
    rewrite IH. cbn [outputs map fst snd net after_calls].
    rewrite <- !app_assoc. cbn [app].
    now rewrite after_calls_app.
Qed.

Lemma build_memory_run (bs : list (Batch Input)) (w : World Input) :
  exists xs,
    build_memory forward bs w
    = (memory_of (outputs forward (parameters (net w)) (training (net w)) bs),
       after_calls xs w).
Proof.
  exists (map x bs).
  unfold build_memory, bindM. rewrite extract_memory_run.
  cbn [app fst snd]. unfold lift, memory_of.
  destruct (cat0 _) as [bank|e]; cbn [bind]; [|reflexivity].
  destruct (cat1 _) as [labels|e]; cbn [bind]; reflexivity.
Qed.

Lemma score_queries_run (self : KNNEvaluator) (bs : list (Batch Input))
  (memory_bank : Mat) (memory_labels : list Z) (corrects : list nat)
  (w : World Input) :
  exists xs,
    score_queries forward self bs memory_bank memory_labels corrects w
    = (score_all self (outputs forward (parameters (net w)) (training (net w)) bs)
                 memory_bank memory_labels corrects,
       after_calls xs w).
Proof.
  revert corrects w. induction bs as [|b bs IH]; intros corrects w.
  - exists []. simpl. unfold ret. now rewrite after_calls_nil.
  - cbn [score_queries outputs map score_all fst snd].
    unfold bindM at 1. rewrite call_net_run.
    unfold bindM at 1. unfold lift at 1.
    destruct (score_batch _ _ _ _ _ _ _ _) as [c|e]; cbn [bind].
    + destruct (IH c (after_calls [x b] w)) as [xs Hxs].
      exists ([x b] ++ xs). rewrite Hxs.
      now rewrite after_calls_app.
    + now exists [x b].
Qed.

Lemma after_calls_no_grad (xs : list Input) (w : World Input) :
  grad_enabled (autograd w) = false ->
  net (after_calls xs w) = net w /\
  graph (autograd (after_calls xs w)) = graph (autograd w).
Proof.
  intros H. unfold after_calls. simpl. now rewrite H.
Qed.

(** [evaluate] returns what [evaluate_pure] computes from the outputs
    of the network in eval mode, and leaves the world as it was but
    for the mode of the network. *)
Lemma evaluate_run (self : KNNEvaluator) (memory_loader query_loader : DataLoader Input)
  (w : World Input) :
  evaluate forward self memory_loader query_loader w
  = (match parameters (net w) with
     | [] => Raise StopIteration
     | _ :: _ =>
         evaluate_pure self
           (outputs forward (parameters (net w)) false (batches memory_loader))
           (outputs forward (parameters (net w)) false (batches query_loader))
           (dataset_len query_loader)
     end,
     after_evaluate w).
Proof.
  unfold evaluate, no_grad.
  set (w0 := {| net := net w;
                autograd := {| grad_enabled := false; graph := graph (autograd w) |} |}).
  unfold bindM at 1. unfold eval_mode at 1.
  set (w1 := {| net := {| parameters := parameters (net w0); training := false |};
                autograd := autograd w0 |}).
  unfold bindM at 1. unfold next_parameter at 1.
  change (parameters (net w1)) with (parameters (net w)).
  destruct (parameters (net w)) as [|p ps] eqn:Ep; [reflexivity|].
  unfold bindM at 1.
  destruct (build_memory_run (batches memory_loader) w1) as [xs1 H1].
  rewrite H1. clear H1.
  change (parameters (net w1)) with (parameters (net w)).
  change (training (net w1)) with false.
  rewrite Ep. unfold evaluate_pure.
  destruct (memory_of (outputs forward (p :: ps) false (batches memory_loader))) as [m|e];
    cbn [bind].
  2:{ destruct (after_calls_no_grad xs1 w1 eq_refl) as [Hn Hg].
      unfold after_evaluate. rewrite Hn, Hg. reflexivity. }
  unfold bindM at 1.
  destruct (score_queries_run self (batches query_loader) (fst m) (snd m)
              (repeat 0%nat (length (num_neighbors self))) (after_calls xs1 w1))
    as [xs2 H2].
  rewrite H2. clear H2. rewrite after_calls_app.
  destruct (after_calls_no_grad (xs1 ++ xs2) w1 eq_refl) as [Hn Hg].
  destruct (after_calls_no_grad xs1 w1 eq_refl) as [Hn1 _].
  rewrite Hn1.
  change (parameters (net w1)) with (parameters (net w)).
  change (training (net w1)) with false.
  rewrite Ep.
  destruct (score_all _ _ _ _ _) as [c|e]; cbn [bind].
  - unfold lift. unfold after_evaluate. rewrite Hn, Hg. reflexivity.
  - unfold after_evaluate. rewrite Hn, Hg. reflexivity.
Qed.

End EvaluateFacts.

(** ** Claims about the effects of [KNNEvaluator.evaluate] *)

Section EvaluateEffects.

Context {sorter : TorchSort}.
Variable Input : Type.

(** C8.  Whatever [evaluate] returns or raises, the parameters of the
    network are afterwards what they were before, no forward pass of
    the call has been recorded for differentiation, and the gradient
    mode of the caller is back. *)
Theorem evaluate_keeps_parameters (forward : list Vec -> bool -> Input -> Mat)
  (self : KNNEvaluator) (memory_loader query_loader : DataLoader Input)
  (w : World Input) :
  let w' := snd (evaluate forward self memory_loader query_loader w) in
  parameters (net w') = parameters (net w) /\
  graph (autograd w') = graph (autograd w) /\
  grad_enabled (autograd w') = grad_enabled (autograd w).
Proof.
  cbv zeta. rewrite evaluate_run. cbn [snd after_evaluate net autograd
    parameters graph grad_enabled]. auto.
Qed.

(** X15.  What the call does change: the network is left in eval mode,
    whether [evaluate] returns or raises. *)
Lemma evaluate_leaves_eval_mode (forward : list Vec -> bool -> Input -> Mat)
  (self : KNNEvaluator) (memory_loader query_loader : DataLoader Input)
  (w : World Input) :
  training (net (snd (evaluate forward self memory_loader query_loader w))) = false.
Proof. now rewrite evaluate_run. Qed.

(** C6.  Two runs of [evaluate] by the same evaluator on the same
    loaders, in which the network returns the same embeddings for
    every batch, return the same scores (or raise the same error):
    nothing else enters the result. *)
Theorem evaluate_deterministic (forward1 forward2 : list Vec -> bool -> Input -> Mat)
  (self : KNNEvaluator) (memory_loader query_loader : DataLoader Input)
  (w1 w2 : World Input) :
  (parameters (net w1) = [] <-> parameters (net w2) = []) ->
  (forall b, In b (batches memory_loader ++ batches query_loader) ->
             forward1 (parameters (net w1)) false (x b)
             = forward2 (parameters (net w2)) false (x b)) ->
  fst (evaluate forward1 self memory_loader query_loader w1)
  = fst (evaluate forward2 self memory_loader query_loader w2).
Proof.
  intros Hp Hf. rewrite !evaluate_run. cbn [fst].
  assert (Hout : forall bs, incl bs (batches memory_loader ++ batches query_loader) ->
            outputs forward1 (parameters (net w1)) false bs
            = outputs forward2 (parameters (net w2)) false bs).
  { intros bs Hbs. unfold outputs. apply map_ext_in. intros b Hb.
    now rewrite (Hf b (Hbs b Hb)). }
  rewrite (Hout (batches memory_loader)) by (apply incl_appl, incl_refl).
  rewrite (Hout (batches query_loader)) by (apply incl_appr, incl_refl).
  destruct (parameters (net w1)) as [|p1 ps1], (parameters (net w2)) as [|p2 ps2];
    try reflexivity.
  - destruct Hp as [Hp _]. specialize (Hp eq_refl). discriminate.
  - destruct Hp as [_ Hp]. specialize (Hp eq_refl). discriminate.
Qed.

(** in particular a second call, on the world the first call left,
    returns what the first call returned *)
Lemma evaluate_twice (forward : list Vec -> bool -> Input -> Mat)
  (self : KNNEvaluator) (memory_loader query_loader : DataLoader Input)
  (w : World Input) :
  fst (evaluate forward self memory_loader query_loader
         (snd (evaluate forward self memory_loader query_loader w)))
  = fst (evaluate forward self memory_loader query_loader w).
Proof.
  rewrite !evaluate_run. reflexivity.
Qed.

End EvaluateEffects.

(** ** Normalisation and the memory bank *)

Lemma Rsum_squares_nonneg (v : Vec) : 0 <= Rsum (map (fun x => x * x) v).
Proof.
  induction v as [|a v IH]; simpl; [lra|].
  assert (0 <= a * a) by (apply Rle_0_sqr). lra.
Qed.

Lemma Rsum_squares_scaled (n : R) (v : Vec) :
  n <> 0 ->
  Rsum (map (fun x => x * x) (map (fun x => x / n) v))
  = Rsum (map (fun x => x * x) v) / (n * n).
Proof.
  intros Hn. induction v as [|a v IH]; simpl.
  - unfold Rdiv. now rewrite Rmult_0_l.
  - rewrite IH. field. exact Hn.
Qed.

Lemma normalize_eps_pos : 0 < normalize_eps.
Proof. unfold normalize_eps. apply Rinv_0_lt_compat. lra. Qed.

(** a vector whose norm is at least [eps] is normalised to norm 1 *)
Lemma normalize_row_unit (v : Vec) :
  normalize_eps <= norm2 v -> norm2 (normalize_row v) = 1.
Proof.
  intros H. assert (He := normalize_eps_pos).
  unfold normalize_row. rewrite (Rmax_left _ _ H).
  unfold norm2 at 1.
  rewrite Rsum_squares_scaled by lra.
  unfold norm2. rewrite sqrt_sqrt by apply Rsum_squares_nonneg.
  unfold Rdiv. rewrite Rinv_r.
  - apply sqrt_1.
  - intros E. unfold norm2 in H. rewrite E, sqrt_0 in H. lra.
Qed.

(** a vector whose norm is below [eps] is divided by [eps] and stays
    short of norm 1 *)
Lemma normalize_row_below_eps (v : Vec) :
  norm2 v < normalize_eps -> norm2 (normalize_row v) < 1.
Proof.
  intros H. assert (He := normalize_eps_pos).
  assert (Hn0 : 0 <= norm2 v) by apply sqrt_pos.
  assert (Hee : 0 < normalize_eps * normalize_eps) by (apply Rmult_lt_0_compat; lra).
  unfold normalize_row. rewrite Rmax_right by lra.
  unfold norm2 at 1. rewrite Rsum_squares_scaled by lra.
  assert (HS : Rsum (map (fun x => x * x) v) = norm2 v * norm2 v).
  { unfold norm2. now rewrite sqrt_sqrt by apply Rsum_squares_nonneg. }
  rewrite HS.
  apply Rlt_le_trans with (sqrt 1); [|rewrite sqrt_1; lra].
  apply sqrt_lt_1_alt. split.
  - apply Rmult_le_pos; [now apply Rmult_le_pos|].
    left. now apply Rinv_0_lt_compat.
  - apply Rmult_lt_reg_r with (normalize_eps * normalize_eps); [exact Hee|].
    unfold Rdiv. rewrite Rmult_assoc, Rinv_l, Rmult_1_r, Rmult_1_l by lra.
    apply Rmult_le_0_lt_compat; lra.
Qed.

Lemma normalize_row_length (v : Vec) : length (normalize_row v) = length v.
Proof. unfold normalize_row. apply length_map. Qed.

Lemma normalize_is_matrix (r c : nat) (z : Mat) :
  is_matrix r c z -> is_matrix r c (normalize z).
Proof.
  intros [Hr Hc]. split.
  - unfold normalize. now rewrite length_map.
  - unfold normalize. apply Forall_map. revert Hc. apply Forall_impl.
    intros v Hv. now rewrite normalize_row_length.
Qed.

Lemma map_nth_seq (v : Vec) : map (fun i => nth i v 0) (seq 0 (length v)) = v.
Proof.
  induction v as [|a v IH]; [reflexivity|].
  cbn [length seq map nth]. f_equal.
  rewrite <- seq_shift, map_map. exact IH.
Qed.

Lemma ncols_nonempty (r c : nat) (A : Mat) :
  is_matrix r c A -> (0 < r)%nat -> ncols A = c.
Proof.
  intros [Hr Hc] Hpos. destruct A as [|v A]; simpl in *; [lia|].
  now inversion Hc.
Qed.

(** the transpose of an [(M, D)] matrix with [M >= 1] is a [(D, M)]
    matrix whose column [m] is row [m] of the original *)
Lemma transpose_is_matrix (M D : nat) (A : Mat) :
  is_matrix M D A -> (0 < M)%nat -> is_matrix D M (transpose A).
Proof.
  intros HA HM. unfold transpose. rewrite (ncols_nonempty _ _ _ HA HM).
  destruct HA as [Hr Hc]. split.
  - now rewrite length_map, length_seq.
  - apply Forall_map, Forall_forall. intros f _.
    unfold col. now rewrite length_map.
Qed.

Lemma col_transpose (M D : nat) (A : Mat) (m : nat) :
  is_matrix M D A -> (m < M)%nat -> col m (transpose A) = nth m A [].
Proof.
  intros HA Hm.
  assert (HM : (0 < M)%nat) by lia.
  unfold transpose. rewrite (ncols_nonempty _ _ _ HA HM).
  destruct HA as [Hr Hc].
  unfold col at 1. rewrite map_map.
  assert (Hrow : length (nth m A []) = D).
  { rewrite Forall_forall in Hc. apply Hc, nth_In. lia. }
  transitivity (map (fun i => nth i (nth m A []) 0) (seq 0 D));
    [|rewrite <- Hrow; apply map_nth_seq].
  apply map_ext. intros f. unfold col.
  rewrite (nth_indep (map (fun r => nth f r 0) A) 0 (nth f [] 0)).
  2:{ rewrite length_map. unfold Vec in *. lia. }
  apply (map_nth (fun r => nth f r 0)).
Qed.

Lemma ncols_transpose (M D : nat) (A : Mat) :
  is_matrix M D A -> (0 < M)%nat -> (0 < D)%nat -> ncols (transpose A) = M.
Proof.
  intros HA HM HD.
  apply (ncols_nonempty D M); [now apply transpose_is_matrix | assumption].
Qed.

Lemma concat_normalize_is_matrix (D : nat) (mem : list (Mat * list Z)) :
  well_shaped D mem ->
  is_matrix (length (concat (map snd mem))) D
            (concat (map (fun b => normalize (fst b)) mem)).
Proof.
  induction 1 as [|b mem [[Hr Hc] _] _ [IHr IHc]]; [split; constructor|].
  cbn [map concat]. split.
  - rewrite !length_app, IHr. unfold normalize. rewrite length_map.
    unfold Vec in *. lia.
  - apply Forall_app. split; [|assumption].
    apply (normalize_is_matrix (length (snd b)) D). now split.
Qed.

Lemma memory_of_ok (D : nat) (mem : list (Mat * list Z)) :
  mem <> [] -> well_shaped D mem ->
  memory_of mem = Ok (transpose (concat (map (fun b => normalize (fst b)) mem)),
                      concat (map snd mem)) /\
  (0 < length (concat (map snd mem)))%nat.
Proof.
  intros Hne Hwf. split.
  - unfold memory_of.
    assert (Hcols : Forall (fun t => ncols t = D) (map (fun b => normalize (fst b)) mem)).
    { apply Forall_map. revert Hwf. apply Forall_impl. intros b [Hm Hpos].
      apply (ncols_nonempty (length (snd b))); [|assumption].
      now apply normalize_is_matrix. }
    destruct mem as [|b mem]; [contradiction|].
    unfold cat0. cbn [map].
    replace (forallb _ _) with true.
    + cbn [bind cat1 map]. reflexivity.
    + symmetry. apply forallb_forall. intros t Ht.
      rewrite Forall_forall in Hcols.
      apply Nat.eqb_eq.
      rewrite (Hcols t Ht). symmetry. apply Hcols. now left.
  - destruct mem as [|b mem]; [contradiction|].
    inversion Hwf as [|? ? [_ Hpos] _]; subst.
    cbn [map concat]. rewrite length_app. lia.
Qed.


(** C5, as stated, fails: a network whose output is the zero vector
    gives a memory bank whose column is the zero vector, of norm 0. *)
Lemma zero_embedding_is_not_normalised :
  exists memory_bank memory_labels,
    fst (build_memory (fun _ _ _ => [[0; 0]]) one_batch some_world)
    = Ok (memory_bank, memory_labels) /\
    norm2 (col 0 memory_bank) <> 1.
Proof.
  eexists. eexists. split.
  - reflexivity.
  - unfold norm2, col, transpose, normalize, normalize_row. simpl.
    unfold Rdiv. rewrite !Rmult_0_l, !Rplus_0_l.
    rewrite sqrt_0. lra.
Qed.

(** ** Counting the correct predictions *)

Lemma add_at_app (pre : list nat) (c n : nat) (t : list nat) :
  add_at (length pre) n (pre ++ c :: t) = Ok (pre ++ (c + n)%nat :: t).
Proof.
  induction pre as [|p pre IH]; simpl.
  - reflexivity.
  - now rewrite IH.
Qed.

Lemma eq_sum_same_length (y : list Z) (p : list nat) :
  length y = length p -> eq_sum y p = Ok (count_correct y p).
Proof.
  intros H. unfold eq_sum. rewrite H, Nat.eqb_refl. reflexivity.
Qed.

Lemma map2_add_add (acc : list nat) (f g : nat -> nat) (ks : list nat) :
  map2 Nat.add (map2 Nat.add acc (map f ks)) (map g ks)
  = map2 Nat.add acc (map (fun k => (f k + g k)%nat) ks).
Proof.
  revert acc. induction ks as [|k ks IH]; intros [|a acc]; simpl; try reflexivity.
  rewrite IH. f_equal. lia.
Qed.

Lemma map2_add_zero (acc : list nat) (ks : list nat) :
  length acc = length ks ->
  map2 Nat.add acc (map (fun _ => 0%nat) ks) = acc.
Proof.
  revert acc. induction ks as [|k ks IH]; intros [|a acc] H; simpl in *;
    try reflexivity; try discriminate.
  rewrite IH by lia. f_equal. lia.
Qed.

Lemma map2_add_repeat_zero (f : nat -> nat) (ks : list nat) :
  map2 Nat.add (repeat 0%nat (length ks)) (map f ks) = map f ks.
Proof.
  induction ks as [|k ks IH]; simpl; [reflexivity | now rewrite IH].
Qed.

Section Counting.

Context {sorter : TorchSort}.

Variable self : KNNEvaluator.
Variables (memory_bank : Mat) (memory_labels : list Z).

Hypothesis labels_length : length memory_labels = ncols memory_bank.
Hypothesis labels_range : labels_in_range (num_classes self) memory_labels.
Hypothesis classes_pos : (0 < num_classes self)%nat.

Lemma score_batch_ok (z : Mat) (y0 : list Z) (ks : list nat) (pre post : list nat) :
  Forall (fun q => length q = nrows memory_bank) z ->
  length y0 = length z ->
  Forall (fun k => (k <= ncols memory_bank)%nat) ks ->
  length post = length ks ->
  score_batch self z y0 memory_bank memory_labels (length pre) ks (pre ++ post)
  = Ok (pre ++ map2 Nat.add post
               (map (fun k => count_correct y0
                                (map (predicted_class self k memory_bank memory_labels) z))
                    ks)).
Proof.
  intros Hz Hy Hks. revert pre post.
  induction Hks as [|k ks Hk Hks IH]; intros pre post Hpost.
  - destruct post; [|discriminate]. reflexivity.
  - destruct post as [|c post]; [discriminate|].
    cbn [score_batch].
    rewrite predict_rows by assumption. cbn [bind].
    unfold first_column.
    replace (num_classes self =? 0)%nat with false
      by (symmetry; apply Nat.eqb_neq; lia).
    cbn [bind]. rewrite map_map.
    assert (Hpc : map (fun q => nth 0 (predict_row self k memory_bank memory_labels q) 0%nat) z
                  = map (predicted_class self k memory_bank memory_labels) z).
    { apply map_ext_in. intros q Hq. symmetry.
      rewrite Forall_forall in Hz.
      apply predicted_class_row; try assumption. now apply Hz. }
    rewrite Hpc. clear Hpc.
    set (n := count_correct y0 (map (predicted_class self k memory_bank memory_labels) z)).
    rewrite eq_sum_same_length by (now rewrite length_map).
    cbn [bind]. fold n. rewrite add_at_app. cbn [bind].
    replace (S (length pre)) with (length (pre ++ [(c + n)%nat]))
      by (rewrite length_app; simpl; lia).
    replace (pre ++ (c + n)%nat :: post) with ((pre ++ [(c + n)%nat]) ++ post)
      by (now rewrite <- app_assoc).
    rewrite IH by (simpl in Hpost; lia).
    rewrite <- app_assoc. reflexivity.
Qed.

Lemma score_all_ok (qry : list (Mat * list Z)) (acc : list nat) :
  Forall (fun b => Forall (fun q => length q = nrows memory_bank) (fst b) /\
                   length (snd b) = length (fst b)) qry ->
  Forall (fun k => (k <= ncols memory_bank)%nat) (num_neighbors self) ->
  length acc = length (num_neighbors self) ->
  score_all self qry memory_bank memory_labels acc
  = Ok (map2 Nat.add acc
          (map (fun k => total_correct self k memory_bank memory_labels qry)
               (num_neighbors self))).
Proof.
  intros Hq Hks. revert acc.
  induction Hq as [|b qry [Hb Hy] Hq IH]; intros acc Hacc.
  - cbn [score_all]. unfold total_correct. cbn [map list_sum].
    now rewrite map2_add_zero.
  - cbn [score_all].
    assert (Hstep := score_batch_ok (normalize (fst b)) (snd b)
                       (num_neighbors self) [] acc).
    cbn [length app] in Hstep. unfold Mat, Vec in *.
    rewrite Hstep; clear Hstep.
    + cbn [bind]. rewrite IH.
      * rewrite map2_add_add. reflexivity.
      * rewrite map2_length, length_map, Hacc. apply Nat.min_id.
    + unfold normalize. apply Forall_map. revert Hb. apply Forall_impl.
      intros q Hq'. now rewrite normalize_row_length.
    + unfold normalize. now rewrite length_map.
    + assumption.
    + assumption.
Qed.

End Counting.

(** ** The dictionary of scores *)

Lemma dict_get_set_same (k : nat) (v : R) (d : Scores) :
  dict_get k (dict_set k v d) = Some v.
Proof.
  induction d as [|[k' v'] d IH]; simpl.
  - now rewrite Nat.eqb_refl.
  - destruct (Nat.eqb_spec k' k) as [E | E]; simpl.
    + now rewrite Nat.eqb_refl.
    + destruct (Nat.eqb_spec k' k); [contradiction | exact IH].
Qed.

Lemma dict_get_set_other (k k' : nat) (v : R) (d : Scores) :
  k <> k' -> dict_get k (dict_set k' v d) = dict_get k d.
Proof.
  intros Hne. induction d as [|[k'' v''] d IH]; simpl.
  - destruct (Nat.eqb_spec k' k); [congruence | reflexivity].
  - destruct (Nat.eqb_spec k'' k') as [E | E]; simpl.
    + subst. destruct (Nat.eqb_spec k' k); [congruence | reflexivity].
    + destruct (Nat.eqb_spec k'' k); [reflexivity | exact IH].
Qed.

Lemma fill_scores_ok (n : nat) (f : nat -> nat) (ks : list nat) (pre : list nat)
  (d : Scores) :
  n <> 0%nat ->
  exists d',
    fill_scores n (length pre) ks (pre ++ map f ks) d = Ok d' /\
    (forall k, In k ks -> dict_get k d' = Some (INR (f k) / INR n)) /\
    (forall k, ~ In k ks -> dict_get k d' = dict_get k d).
Proof.
  intros Hn. revert pre d.
  induction ks as [|k0 ks IH]; intros pre d.
  - exists d. simpl. repeat split; auto. intros k [].
  - cbn [fill_scores map].
    rewrite nth_error_app2 by lia. rewrite Nat.sub_diag. cbn [nth_error bind].
    unfold true_div.
    replace (n =? 0)%nat with false by (symmetry; now apply Nat.eqb_neq).
    cbn [bind].
    destruct (IH (pre ++ [f k0]) (dict_set k0 (INR (f k0) / INR n) d))
      as (d' & Hrun & Hin & Hout).
    rewrite length_app, <- app_assoc in Hrun. cbn [length app] in Hrun.
    rewrite Nat.add_1_r in Hrun.
    exists d'. split; [exact Hrun|]. split.
    + intros k Hk.
      destruct (in_dec Nat.eq_dec k ks) as [Hks | Hks]; [now apply Hin|].
      destruct Hk as [<- | Hk]; [|contradiction].
      rewrite (Hout k0 Hks). apply dict_get_set_same.
    + intros k Hk. rewrite Hout by (intros H; apply Hk; now right).
      apply dict_get_set_other. intros ->. apply Hk. now left.
Qed.

Lemma labels_in_range_classes (C : nat) (labels : list Z) :
  labels_in_range C labels -> (0 < length labels)%nat -> (0 < C)%nat.
Proof.
  intros Hr Hpos. destruct labels as [|l ls]; [simpl in Hpos; lia|].
  inversion Hr as [|? ? Hl _]; subst. lia.
Qed.

(** ** The scores of [evaluate] *)

Section EvaluateScores.

Context {sorter : TorchSort}.
Variable Input : Type.
Variable forward : list Vec -> bool -> Input -> Mat.

(** C4.  A network with parameters whose outputs, in eval mode, are
    matrices with [D >= 1] columns and a row per label of the batch;
    memory labels that are class indices; no [k] of the neighbour list
    above the number of memory entries; a query data set that is not
    empty.  Then [evaluate] returns scores, and the score of every [k]
    of the list is the number of query samples whose predicted class
    equals their label, divided by the length of the query data
    set. *)
Theorem evaluate_scores_are_accuracies (self : KNNEvaluator)
  (memory_loader query_loader : DataLoader Input) (w : World Input) (D : nat) :
  let mem := outputs forward (parameters (net w)) false (batches memory_loader) in
  let qry := outputs forward (parameters (net w)) false (batches query_loader) in
  parameters (net w) <> [] ->
  batches memory_loader <> [] ->
  (0 < D)%nat ->
  well_shaped D mem ->
  Forall (fun b => is_matrix (length (snd b)) D (fst b)) qry ->
  labels_in_range (num_classes self) (concat (map snd mem)) ->
  Forall (fun k => (k <= length (concat (map snd mem)))%nat) (num_neighbors self) ->
  dataset_len query_loader <> 0%nat ->
  exists scores memory_bank memory_labels,
    fst (evaluate forward self memory_loader query_loader w) = Ok scores /\
    memory_of mem = Ok (memory_bank, memory_labels) /\
    forall k, In k (num_neighbors self) ->
      dict_get k scores
      = Some (INR (total_correct self k memory_bank memory_labels qry)
              / INR (dataset_len query_loader)).
Proof.
  intros mem qry Hp Hml HD Hwf Hq Hr Hks Hn.
  rewrite evaluate_run. cbn [fst].
  destruct (parameters (net w)) as [|p ps] eqn:Ep; [contradiction|].
  fold mem qry.
  assert (Hne : mem <> []).
  { unfold mem, outputs. destruct (batches memory_loader); [contradiction | discriminate]. }
  destruct (memory_of_ok D mem Hne Hwf) as [Hmem Hpos].
  assert (HA := concat_normalize_is_matrix D mem Hwf).
  set (A := concat (map (fun b => normalize (fst b)) mem)) in *.
  set (labels := concat (map snd mem)) in *.
  assert (Hbank := transpose_is_matrix _ _ _ HA Hpos).
  assert (Hcols := ncols_transpose _ _ _ HA Hpos HD).
  assert (Hrows : nrows (transpose A) = D) by (destruct Hbank as [H _]; exact H).
  assert (HC : (0 < num_classes self)%nat)
    by (apply (labels_in_range_classes _ labels); assumption).
  unfold evaluate_pure. rewrite Hmem. cbn [bind fst snd].
  rewrite (score_all_ok self (transpose A) labels).
  - cbn [bind]. rewrite map2_add_repeat_zero.
    destruct (fill_scores_ok (dataset_len query_loader)
                (fun k => total_correct self k (transpose A) labels qry)
                (num_neighbors self) [] [] Hn) as (d' & Hrun & Hin & _).
    cbn [length app] in Hrun.
    exists d', (transpose A), labels.
    split; [exact Hrun|]. split; [reflexivity|]. exact Hin.
  - now rewrite Hcols.
  - exact Hr.
  - exact HC.
  - revert Hq. apply Forall_impl. intros b [Hb Hrow]. split.
    + rewrite Hrows. exact Hrow.
    + symmetry. exact Hb.
  - rewrite Hcols. exact Hks.
  - apply repeat_length.
Qed.

End EvaluateScores.

(** *** The claims about [evaluate] at concrete inputs *)

Lemma evaluate_scores_are_accuracies_witness :
  exists scores,
    fst (evaluate (sorter := stable_sort) (fun _ _ _ => [[1; 0]]) one_nn_evaluator
                  one_batch_loader one_batch_loader some_world) = Ok scores.
Proof.
  destruct (evaluate_scores_are_accuracies (sorter := stable_sort) unit
              (fun _ _ _ => [[1; 0]]) one_nn_evaluator
              one_batch_loader one_batch_loader some_world 2)
    as (scores & bank & labels & H & _).
  - discriminate.
  - discriminate.
  - lia.
  - repeat constructor.
  - repeat constructor.
  - repeat constructor; simpl; lia.
  - repeat constructor.
  - discriminate.
  - exists scores. exact H.
Defined.

Lemma evaluate_deterministic_witness :
  fst (evaluate (sorter := stable_sort) (fun _ _ _ => [[1; 0]]) one_nn_evaluator
                one_batch_loader one_batch_loader some_world)
  = fst (evaluate (sorter := stable_sort) (fun _ _ _ => [[1; 0]]) one_nn_evaluator
                  one_batch_loader one_batch_loader other_world).
Proof.
  apply (evaluate_deterministic (sorter := stable_sort) unit).
  - split; discriminate.
  - intros b _. reflexivity.
Defined.

(** ** datasets/brain.py *)

Module BrainFacts.

Import Brain.

Lemma isin_In (values : list string) (s : string) :
  isin values s = true <-> In s values.
Proof.
  unfold isin. rewrite existsb_exists. split.
  - intros [v [Hv E]]. apply String.eqb_eq in E. now subst.
  - intros H. exists s. split; [assumption | apply String.eqb_refl].
Qed.

Section Processor.

Variable path_join : string -> string -> string -> string.
Variable cv_split : nat -> nat -> list string -> list Z -> list string
                    -> result (list (list nat * list nat)).
Variable compute_class_weight : list Z -> result (list R).

Lemma split_info_disjoint (self : BrainProcessor) (n_splits : nat) (n_cv : Z)
  (train_info test_info u_train_info : list Row) :
  split_info cv_split self n_splits n_cv = Ok (train_info, test_info, u_train_info) ->
  u_train_info
  = filter (fun r => negb (isin (nodup string_dec (map RID test_info)) (RID r)))
           (u_data_info self) /\
  forall ru rt, In ru u_train_info -> In rt test_info -> RID ru <> RID rt.
Proof.
  unfold split_info.
  destruct (n_splits <? 2)%nat; [discriminate|].
  destruct (negb _); [discriminate|].
  destruct (cv_split _ _ _ _ _) as [folds|e]; [|discriminate].
  cbn [bind].
  destruct (nth_error (map fst folds) _) as [tr|]; [|discriminate].
  cbn [bind].
  destruct (nth_error (map snd folds) _) as [te|]; [|discriminate].
  cbn [bind].
  destruct (iloc (data_info self) tr) as [tri|e]; [|discriminate].
  cbn [bind].
  destruct (iloc (data_info self) te) as [tei|e]; [|discriminate].
  cbn [bind].
  intros H. injection H as <- <- <-.
  split; [reflexivity|].
  intros ru rt Hu Ht E.
  apply filter_In in Hu. destruct Hu as [_ Hu].
  apply negb_true_iff in Hu.
  assert (Hin : isin (nodup string_dec (map RID tei)) (RID ru) = true).
  { apply isin_In. apply nodup_In. rewrite E. now apply in_map. }
  congruence.
Qed.

(** C10.  When [process] returns its data sets, they are built from
    three tables of rows, and no row of the unlabeled table has the
    RID of a row of the test table; the processor keeps that
    unlabeled table. *)
Theorem process_unlabeled_has_no_test_subject (self self' : BrainProcessor)
  (n_splits : nat) (n_cv : Z) (datasets : Datasets) :
  process path_join cv_split compute_class_weight self n_splits n_cv
  = Ok (datasets, self') ->
  exists train_info test_info u_train_info,
    split_info cv_split self n_splits n_cv = Ok (train_info, test_info, u_train_info) /\
    train datasets = parse_data path_join self train_info /\
    test datasets = parse_data path_join self test_info /\
    u_train datasets = parse_data path_join self u_train_info /\
    u_data_info self' = u_train_info /\
    forall ru rt, In ru u_train_info -> In rt test_info -> RID ru <> RID rt.
Proof.
  unfold process.
  destruct (split_info cv_split self n_splits n_cv) as [[[tri tei] ui]|e] eqn:Es;
    [|discriminate].
  cbn [bind].
  destruct (compute_class_weight _) as [cw|e]; [|discriminate].
  cbn [bind].
  intros H. injection H as <- <-.
  exists tri, tei, ui. cbn [train test u_train u_data_info].
  repeat split; try reflexivity.
  now apply (split_info_disjoint self n_splits n_cv tri tei ui).
Qed.

End Processor.

End BrainFacts.

Module MoCoFacts.

Import Brain.

Section MoCo.

Variables Image Rng : Type.
Variable files : string -> option Image.

(** C9.  At an index with a path whose file loads and with a label
    (0, 1, or -1 for an unlabeled sample), [__getitem__] returns the
    query transform and the key transform of the one loaded volume
    as [x1] and [x2], the label as [y], and the index itself; the
    key transform draws after the query transform. *)
Theorem getitem_returns_two_views_of_one_volume (self : BrainMoCo Image Rng)
  (i : nat) (g : Rng) (p : string) (img : Image) (yi : Z) :
  nth_error (paths self) i = Some (Str p) ->
  files p = Some img ->
  nth_error (labels self) i = Some yi ->
  getitem files self i g
  = (Ok {| x1 := fst (query_transform self img g);
           x2 := fst (key_transform self img (snd (query_transform self img g)));
           item_y := yi;
           idx := i |},
     snd (key_transform self img (snd (query_transform self img g)))).
Proof.
  intros Hp Hf Hy. unfold getitem, load_image.
  rewrite Hp, Hf.
  destruct (query_transform self img g) as [v1 g1].
  cbn [fst snd].
  destruct (key_transform self img g1) as [v2 g2].
  cbn [fst snd].
  now rewrite Hy.
Qed.

(** the length of the data set is the number of its labels, and an
    index below it has a label *)
Lemma index_has_label (self : BrainMoCo Image Rng) (i : nat) :
  (i < len self)%nat -> exists yi, nth_error (labels self) i = Some yi.
Proof.
  unfold len. intros H.
  destruct (nth_error (labels self) i) as [yi|] eqn:E.
  - now exists yi.
  - apply nth_error_None in E. lia.
Qed.

End MoCo.

End MoCoFacts.

(** *** The claims about the data sets at concrete inputs *)

Lemma getitem_returns_two_views_of_one_volume_witness :
  Brain.getitem toy_files toy_moco 1%nat 2%nat
  = (Ok {| Brain.x1 := 11%nat; Brain.x2 := 27%nat;
           Brain.item_y := (-1)%Z; Brain.idx := 1%nat |}, 4%nat).
Proof.
  apply (MoCoFacts.getitem_returns_two_views_of_one_volume nat nat toy_files toy_moco
           1%nat 2%nat "root/template/FS7/s2.pkl" 9%nat (-1)%Z).
  - reflexivity.
  - reflexivity.
  - reflexivity.
Defined.

Lemma process_unlabeled_has_no_test_subject_witness :
  exists train_info test_info u_train_info,
    Brain.split_info toy_split toy_processor 2 0
    = Ok (train_info, test_info, u_train_info) /\
    map Brain.RID test_info = ["a"%string] /\
    map Brain.RID u_train_info = ["c"%string] /\
    forall ru rt, In ru u_train_info -> In rt test_info -> Brain.RID ru <> Brain.RID rt.
Proof.
  assert (Hres : exists ds s',
             Brain.process toy_join toy_split toy_class_weight toy_processor 2 0
             = Ok (ds, s')) by (eexists; eexists; reflexivity).
  destruct Hres as (ds & s' & Hres).
  destruct (BrainFacts.process_unlabeled_has_no_test_subject
              toy_join toy_split toy_class_weight toy_processor s' 2%nat 0%Z ds Hres)
    as (tr & te & u & Hs & _ & _ & _ & _ & Hd).
  - exists tr, te, u.
    assert (E : Brain.split_info toy_split toy_processor 2 0
                = Ok ([ {| Brain.RID := "b"; Brain.Conv := 1;
                           Brain.MRI := Brain.Str "s2"; Brain.PET := Brain.NaN |} ],
                      [ {| Brain.RID := "a"; Brain.Conv := 0;
                           Brain.MRI := Brain.Str "s1"; Brain.PET := Brain.NaN |} ],
                      [ {| Brain.RID := "c"; Brain.Conv := -1;
                           Brain.MRI := Brain.Str "s4"; Brain.PET := Brain.NaN |} ]))
      by reflexivity.
    rewrite E in Hs. injection Hs as <- <- <-.
    repeat split; try reflexivity. exact Hd.
Defined.

(** * Further properties of [KNNEvaluator.predict] *)

Section PredictMore.

Context {sorter : TorchSort}.

Lemma mul_unsqueeze_length (k kk : nat) (a : list Mat) (w : Mat) (p : list Mat) :
  mul_unsqueeze k kk a w = Ok p -> length p = Nat.min (length a) (length w).
Proof.
  unfold mul_unsqueeze.
  destruct (k =? kk)%nat; [|destruct (kk =? 1)%nat; [|destruct (k =? 1)%nat]];
    intros H; try discriminate; injection H as <-; apply map2_length.
Qed.

(** X1.  Whenever [predict] returns, it returns one ranking per query,
    and every ranking is a permutation of the class indices
    [0 .. C-1]. *)
Theorem predict_returns_permutations_of_the_classes (self : KNNEvaluator) (k : nat)
  (query memory_bank : Mat) (memory_labels : list Z) (ranking : list (list nat)) :
  predict self k query memory_bank memory_labels = Ok ranking ->
  length ranking = length query /\
  Forall (fun r => Permutation r (seq 0 (num_classes self))) ranking.
Proof.
  unfold predict.
  destruct (einsum_bf_fm query memory_bank) as [sim|e] eqn:Es; [|discriminate].
  cbn [bind].
  destruct (gather _ _) as [lab|e]; [|discriminate].
  cbn [bind].
  destruct (scatter_ _ _) as [oh|e]; [|discriminate].
  cbn [bind].
  destruct (mul_unsqueeze _ _ _ _) as [p|e] eqn:Em; [|discriminate].
  cbn [bind]. intros H. injection H as <-.
  assert (Hsim : length sim = length query).
  { revert Es. unfold einsum_bf_fm.
    repeat match goal with
           | |- context [if ?c then _ else _] => destruct c
           end;
      intros Es; try discriminate; injection Es as <-; apply length_map. }
  split.
  - apply mul_unsqueeze_length in Em.
    unfold view3 in Em. rewrite !length_map, length_seq in Em.
    unfold sum_dim1. rewrite !length_map. unfold Mat, Vec in *.
    rewrite Em, Hsim. apply Nat.min_id.
  - unfold sum_dim1. rewrite map_map. apply Forall_map, Forall_forall.
    intros g _.
    assert (Hp := argsort_desc_perm (map (fun c => Rsum (col c g)) (seq 0 (num_classes self)))).
    now rewrite length_map, length_seq in Hp.
Qed.

(** X2.  The ranking of a query does not depend on the batch it is in:
    on well-shaped inputs with [k] at most the number of memory entries,
    [predict] of two batches put together is [predict] of the first
    followed by [predict] of the second. *)
Theorem predict_of_joined_batches (self : KNNEvaluator) (k : nat)
  (query1 query2 memory_bank : Mat) (memory_labels : list Z) :
  Forall (fun q => length q = nrows memory_bank) (query1 ++ query2) ->
  length memory_labels = ncols memory_bank ->
  labels_in_range (num_classes self) memory_labels ->
  (k <= ncols memory_bank)%nat ->
  exists r1 r2,
    predict self k query1 memory_bank memory_labels = Ok r1 /\
    predict self k query2 memory_bank memory_labels = Ok r2 /\
    predict self k (query1 ++ query2) memory_bank memory_labels = Ok (r1 ++ r2).
Proof.
  intros Hq Hl Hr Hk.
  destruct (proj1 (Forall_app _ _ _) Hq) as [Hq1 Hq2].
  exists (map (predict_row self k memory_bank memory_labels) query1),
         (map (predict_row self k memory_bank memory_labels) query2).
  rewrite <- map_app.
  repeat split; now apply predict_rows.
Qed.

(** X3.  A query batch of shape [(B, F)] with [B >= 1], against a
    memory bank of shape [(F', M)]: when [F] and [F'] differ and neither
    is 1, [predict] raises the error of mismatched shapes, whatever the
    rest of the input.  (When one of the two is 1 the library broadcasts
    it, and [einsum] returns.) *)
Theorem predict_rejects_wrong_dimension (self : KNNEvaluator) (k : nat)
  (query memory_bank : Mat) (memory_labels : list Z) (F : nat) :
  query <> [] ->
  Forall (fun q => length q = F) query ->
  F <> nrows memory_bank ->
  F <> 1%nat ->
  nrows memory_bank <> 1%nat ->
  predict self k query memory_bank memory_labels = Raise ShapeError.
Proof.
  intros Hne Hq HF HF1 HM1. unfold predict, einsum_bf_fm.
  destruct query as [|q0 query]; [contradiction|].
  inversion Hq as [|? ? Hq0 _]; subst.
  cbn [forallb].
  rewrite (proj2 (Nat.eqb_neq (length q0) (nrows memory_bank)) HF).
  rewrite (proj2 (Nat.eqb_neq (length q0) 1%nat) HF1).
  rewrite (proj2 (Nat.eqb_neq (nrows memory_bank) 1%nat) HM1).
  reflexivity.
Qed.

End PredictMore.

Lemma scatter_out_of_range (C : nat) (self : Mat) (index : list Z) :
  Forall (fun row => length row = C) self ->
  (length index <= length self)%nat ->
  Exists (fun l => ~ (0 <= l < Z.of_nat C)%Z) index ->
  scatter_ self index = Raise IndexError.
Proof.
  intros Hrows. revert index.
  induction Hrows as [|row self Hrow Hrows IH]; intros index Hlen Hbad.
  - destruct index; [inversion Hbad | simpl in Hlen; lia].
  - destruct index as [|i index]; [inversion Hbad|].
    cbn [scatter_]. rewrite Hrow.
    destruct ((0 <=? i)%Z && (Z.to_nat i <? C)%nat)%bool eqn:E.
    + apply andb_true_iff in E. destruct E as [E1 E2].
      apply Z.leb_le in E1. apply Nat.ltb_lt in E2.
      inversion Hbad as [? ? Hi | ? ? Hrest]; subst.
      * exfalso. apply Hi. lia.
      * rewrite IH; [reflexivity | simpl in Hlen; lia | assumption].
    + reflexivity.
Qed.

Lemma length_concat_le {A : Type} (k : nat) (ls : list (list A)) :
  Forall (fun g => (length g <= k)%nat) ls ->
  (length (concat ls) <= length ls * k)%nat.
Proof.
  induction 1 as [|g ls Hg H IH]; [simpl; lia|].
  cbn [concat length]. rewrite length_app. simpl. lia.
Qed.

Lemma zeros_rows (n C : nat) : Forall (fun row => length row = C) (zeros n C).
Proof.
  unfold zeros. apply Forall_forall. intros row Hrow.
  apply repeat_spec in Hrow. subst. apply repeat_length.
Qed.

Lemma Rsum_exp_pos {A : Type} (f : A -> R) (L : list A) :
  L <> [] -> 0 < Rsum (map (fun i => exp (f i)) L).
Proof.
  intros Hne. destruct L as [|a L]; [contradiction|]. clear Hne.
  revert a. induction L as [|b L IH]; intros a; simpl.
  - assert (H := exp_pos (f a)). lra.
  - assert (H := exp_pos (f a)). specialize (IH b). simpl in IH. lra.
Qed.

Section NeighbourLabels.

Context {sorter : TorchSort}.

(** X4.  On inputs of the right shapes, a query with, among its [k]
    selected neighbours, a memory entry whose label is not a class index
    (the label -1 of an unlabeled sample, or a label of [C] or more)
    makes [predict] raise an index error. *)
Theorem predict_rejects_label_out_of_range (self : KNNEvaluator) (k : nat)
  (query memory_bank : Mat) (memory_labels : list Z) (q : Vec) (i : nat) :
  Forall (fun q => length q = nrows memory_bank) query ->
  length memory_labels = ncols memory_bank ->
  In q query ->
  In i (firstn k (argsort_desc (cos_sims q memory_bank))) ->
  ~ (0 <= nth i memory_labels 0%Z < Z.of_nat (num_classes self))%Z ->
  predict self k query memory_bank memory_labels = Raise IndexError.
Proof.
  intros Hq Hl Hin Hi Hbad.
  unfold predict.
  rewrite (einsum_bf_fm_ok _ _ Hq). cbn [bind].
  rewrite !map_map.
  set (idx := map (fun q => firstn k (argsort_desc (cos_sims q memory_bank))) query).
  assert (Hidx_len : length idx = length query) by (unfold idx; apply length_map).
  assert (Hidx_rng : Forall (Forall (fun i => (i < length memory_labels)%nat)) idx).
  { unfold idx. apply Forall_map, Forall_forall. intros q' _.
    apply firstn_argsort_in_range. now rewrite cos_sims_length. }
  rewrite <- Hidx_len at 1.
  rewrite (gather_ok _ _ Hidx_rng). cbn [bind].
  set (lab := map (map (fun i => nth i memory_labels 0%Z)) idx).
  rewrite (scatter_out_of_range (num_classes self)).
  - reflexivity.
  - apply zeros_rows.
  - unfold zeros. rewrite repeat_length.
    replace (length query) with (length lab)
      by (unfold lab; now rewrite length_map).
    apply length_concat_le.
    unfold lab, idx. rewrite map_map. apply Forall_map, Forall_forall.
    intros q' _. rewrite length_map, length_firstn. lia.
  - apply Exists_exists. exists (nth i memory_labels 0%Z). split; [|exact Hbad].
    apply in_concat.
    exists (map (fun i => nth i memory_labels 0%Z)
                (firstn k (argsort_desc (cos_sims q memory_bank)))).
    split.
    + unfold lab, idx. rewrite map_map.
      apply in_map_iff. exists q. split; [reflexivity | assumption].
    + apply (in_map (fun i => nth i memory_labels 0%Z)). exact Hi.
Qed.

(** the class ranked first has a neighbour among the [k] selected ones *)
Lemma first_class_has_neighbour (self : KNNEvaluator) (k : nat)
  (memory_labels : list Z) (sims : list R) :
  labels_in_range (num_classes self) memory_labels ->
  length sims = length memory_labels ->
  (1 <= k <= length sims)%nat ->
  exists i,
    In i (firstn k (argsort_desc sims)) /\
    nth i memory_labels 0%Z
    = Z.of_nat (nth 0 (argsort_desc (row_votes self k memory_labels sims)) 0%nat).
Proof.
  intros Hr Hlen [Hk1 Hk].
  set (N := firstn k (argsort_desc sims)).
  assert (HN : length N = k) by (now apply firstn_argsort_length).
  assert (HNr : Forall (fun i => (i < length memory_labels)%nat) N)
    by (now apply firstn_argsort_in_range).
  destruct N as [|i0 N'] eqn:EN; [simpl in HN; lia|].
  assert (Hl0 : (0 <= nth i0 memory_labels 0%Z < Z.of_nat (num_classes self))%Z).
  { unfold labels_in_range in Hr. rewrite Forall_forall in Hr.
    apply Hr, nth_In. inversion HNr; assumption. }
  set (c0 := Z.to_nat (nth i0 memory_labels 0%Z)).
  assert (Hc0 : (c0 < num_classes self)%nat) by (unfold c0; lia).
  set (votes := row_votes self k memory_labels sims).
  assert (Hv : length votes = num_classes self) by apply row_votes_length.
  destruct (argsort_desc_head_max votes) as [Hh Hmax]; [lia|].
  rewrite Hv in Hh.
  set (h := nth 0 (argsort_desc votes) 0%nat) in *.
  assert (Hpos : 0 < nth c0 votes 0).
  { unfold votes. rewrite row_votes_nth by assumption.
    unfold weighted_vote. fold N. rewrite EN.
    apply Rsum_exp_pos with (f := fun i => nth i sims 0 / temperature self).
    cbn [filter]. unfold label_eqb at 1. fold c0.
    replace (nth i0 memory_labels 0 =? Z.of_nat c0)%Z with true; [discriminate|].
    symmetry. apply Z.eqb_eq. unfold c0. lia. }
  assert (Hhpos : 0 < nth h votes 0).
  { specialize (Hmax c0). rewrite Hv in Hmax. specialize (Hmax Hc0). lra. }
  unfold votes in Hhpos. rewrite row_votes_nth in Hhpos by assumption.
  unfold weighted_vote in Hhpos. fold N in Hhpos. rewrite EN in Hhpos.
  destruct (filter (fun i => label_eqb (nth i memory_labels 0%Z) h) (i0 :: N'))
    as [|i rest] eqn:Ef.
  - simpl in Hhpos. lra.
  - assert (Hi : In i (filter (fun i => label_eqb (nth i memory_labels 0%Z) h) (i0 :: N')))
      by (rewrite Ef; now left).
    apply filter_In in Hi. destruct Hi as [Hi Hlab].
    exists i. split; [exact Hi|].
    unfold label_eqb in Hlab. now apply Z.eqb_eq in Hlab.
Qed.

(** X5.  With [1 <= k <= M] on well-shaped inputs, the class predicted
    for a query is the label of one of its [k] selected neighbours: no
    class without a neighbour is ever predicted. *)
Theorem predicted_class_is_a_neighbour_label (self : KNNEvaluator) (k : nat)
  (memory_bank : Mat) (memory_labels : list Z) (q : Vec) :
  length q = nrows memory_bank ->
  length memory_labels = ncols memory_bank ->
  labels_in_range (num_classes self) memory_labels ->
  (1 <= k <= ncols memory_bank)%nat ->
  exists N i,
    is_top_k (cos_sims q memory_bank) k N /\
    In i N /\
    nth i memory_labels 0%Z
    = Z.of_nat (predicted_class self k memory_bank memory_labels q).
Proof.
  intros Hq Hl Hr [Hk1 Hk].
  rewrite predicted_class_row by assumption.
  unfold predict_row.
  destruct (first_class_has_neighbour self k memory_labels (cos_sims q memory_bank))
    as [i [Hi Hlab]]; try assumption.
  - now rewrite cos_sims_length.
  - rewrite cos_sims_length. lia.
  - exists (firstn k (argsort_desc (cos_sims q memory_bank))), i.
    split; [|split; assumption].
    apply firstn_argsort_top_k. rewrite cos_sims_length. lia.
Qed.

(** X6.  With [k = 1] and a positive temperature, the class predicted
    is the label of a memory entry of highest similarity to the query:
    the nearest-neighbour rule.  (The weights are real numbers; a
    temperature of 0, or one so small that [exp] leaves the range of
    the floats, is not covered.) *)
Theorem one_neighbour_predicts_label_of_nearest (self : KNNEvaluator)
  (memory_bank : Mat) (memory_labels : list Z) (q : Vec) :
  0 < temperature self ->
  length q = nrows memory_bank ->
  length memory_labels = ncols memory_bank ->
  labels_in_range (num_classes self) memory_labels ->
  (1 <= ncols memory_bank)%nat ->
  exists i,
    (i < ncols memory_bank)%nat /\
    (forall j, (j < ncols memory_bank)%nat ->
               nth j (cos_sims q memory_bank) 0 <= nth i (cos_sims q memory_bank) 0) /\
    nth i memory_labels 0%Z
    = Z.of_nat (predicted_class self 1 memory_bank memory_labels q).
Proof.
  intros _ Hq Hl Hr HM.
  rewrite predicted_class_row by (assumption || lia).
  unfold predict_row.
  set (sims := cos_sims q memory_bank).
  assert (Hsl : length sims = ncols memory_bank) by apply cos_sims_length.
  destruct (first_class_has_neighbour self 1 memory_labels sims)
    as [i [Hi Hlab]]; try assumption; try lia.
  destruct (firstn_argsort_top_k sims 1) as (Hnd & HlenN & Hrange & Htop); [lia|].
  exists i. split; [|split].
  - rewrite <- Hsl. now apply Hrange.
  - intros j Hj.
    destruct (Nat.eq_dec j i) as [-> | Hne]; [lra|].
    apply Htop; [assumption | lia |].
    intros Hjin.
    destruct (firstn 1 (argsort_desc sims)) as [|a [|b rest]]; simpl in *;
      try lia; intuition congruence.
  - exact Hlab.
Qed.

End NeighbourLabels.

(** * Further properties of the normalisation *)






Section BoundedSimilarities.

Variable Input : Type.
Variable forward : list Vec -> bool -> Input -> Mat.


End BoundedSimilarities.

(** Normalising twice is normalising once, for every vector whose
    norm is at least [eps]. *)
Theorem normalize_row_idempotent (v : Vec) :
  normalize_eps <= norm2 v ->
  normalize_row (normalize_row v) = normalize_row v.
Proof.
  intros H. assert (He := normalize_eps_pos).
  unfold normalize_row at 1.
  rewrite (normalize_row_unit v H).
  assert (Hle1 : normalize_eps <= 1) by (unfold normalize_eps; lra).
  rewrite (Rmax_left _ _ Hle1).
  rewrite <- (map_id (normalize_row v)) at 2.
  apply map_ext. intros x0. field.
Qed.

(** * Further properties of [KNNEvaluator.evaluate] *)

Lemma count_true_le (l : list bool) : (count_true l <= length l)%nat.
Proof. unfold count_true. apply filter_length_le. Qed.

Lemma count_correct_le (y0 : list Z) (p : list nat) :
  (count_correct y0 p <= length y0)%nat.
Proof.
  unfold count_correct.
  assert (H := count_true_le (map2 label_eqb y0 p)).
  rewrite map2_length in H. lia.
Qed.

Lemma map2_app {A B C : Type} (f : A -> B -> C) (l1 l2 : list A) (m1 m2 : list B) :
  length l1 = length m1 ->
  map2 f (l1 ++ l2) (m1 ++ m2) = map2 f l1 m1 ++ map2 f l2 m2.
Proof.
  revert m1. induction l1 as [|a l1 IH]; intros [|b m1] H; simpl in *;
    try discriminate; [reflexivity|].
  now rewrite IH by lia.
Qed.

Lemma count_correct_app (y1 y2 : list Z) (p1 p2 : list nat) :
  length y1 = length p1 ->
  count_correct (y1 ++ y2) (p1 ++ p2)
  = (count_correct y1 p1 + count_correct y2 p2)%nat.
Proof.
  intros H. unfold count_correct, count_true.
  now rewrite map2_app, filter_app, length_app.
Qed.

Section EvaluateMore.

Context {sorter : TorchSort}.
Variable Input : Type.
Variable forward : list Vec -> bool -> Input -> Mat.

Lemma total_correct_le_samples (self : KNNEvaluator) (k : nat) (bank : Mat)
  (labels : list Z) (qry : list (Mat * list Z)) :
  (total_correct self k bank labels qry <= samples qry)%nat.
Proof.
  unfold total_correct, samples.
  induction qry as [|b qry IH]; simpl; [lia|].
  assert (H := count_correct_le (snd b)
                 (map (predicted_class self k bank labels) (normalize (fst b)))).
  lia.
Qed.

Lemma total_correct_flat (self : KNNEvaluator) (k : nat) (bank : Mat)
  (labels : list Z) (qry : list (Mat * list Z)) :
  Forall (fun b => length (snd b) = length (fst b)) qry ->
  total_correct self k bank labels qry
  = count_correct (concat (map snd qry))
      (map (predicted_class self k bank labels) (normalize (concat (map fst qry)))).
Proof.
  unfold total_correct.
  induction 1 as [|b qry Hb H IH]; [reflexivity|].
  cbn [map concat].
  match goal with
  | |- list_sum (?a :: ?l) = _ => change (list_sum (a :: l)) with (a + list_sum l)%nat
  end.
  rewrite IH.
  unfold normalize. rewrite !map_app.
  rewrite count_correct_app; [reflexivity|].
  rewrite !length_map. exact Hb.
Qed.

(** what [evaluate] returns on a well-formed run *)
Lemma evaluate_on_well_formed_run (self : KNNEvaluator)
  (memory_loader query_loader : DataLoader Input) (w : World Input) (D : nat) :
  well_formed_run forward self memory_loader query_loader w D ->
  exists memory_bank memory_labels,
    memory_of (outputs forward (parameters (net w)) false (batches memory_loader))
    = Ok (memory_bank, memory_labels) /\
    fst (evaluate forward self memory_loader query_loader w)
    = fill_scores (dataset_len query_loader) 0 (num_neighbors self)
        (map (fun k => total_correct self k memory_bank memory_labels
                         (outputs forward (parameters (net w)) false
                                  (batches query_loader)))
             (num_neighbors self)) [].
Proof.
  unfold well_formed_run.
  set (mem := outputs forward (parameters (net w)) false (batches memory_loader)).
  set (qry := outputs forward (parameters (net w)) false (batches query_loader)).
  intros (Hp & Hml & HD & Hwf & Hq & Hr & Hks).
  rewrite evaluate_run. cbn [fst].
  destruct (parameters (net w)) as [|p ps] eqn:Ep; [contradiction|].
  fold mem qry.
  assert (Hne : mem <> []).
  { unfold mem, outputs. destruct (batches memory_loader); [contradiction | discriminate]. }
  destruct (memory_of_ok D mem Hne Hwf) as [Hmem Hpos].
  assert (HA := concat_normalize_is_matrix D mem Hwf).
  set (A := concat (map (fun b => normalize (fst b)) mem)) in *.
  set (labels := concat (map snd mem)) in *.
  assert (Hbank := transpose_is_matrix _ _ _ HA Hpos).
  assert (Hcols := ncols_transpose _ _ _ HA Hpos HD).
  assert (Hrows : nrows (transpose A) = D) by (destruct Hbank as [H _]; exact H).
  assert (HC : (0 < num_classes self)%nat)
    by (apply (labels_in_range_classes _ labels); assumption).
  exists (transpose A), labels. split; [exact Hmem|].
  unfold evaluate_pure. rewrite Hmem. cbn [bind fst snd].
  rewrite (score_all_ok self (transpose A) labels).
  - cbn [bind]. now rewrite map2_add_repeat_zero.
  - now rewrite Hcols.
  - exact Hr.
  - exact HC.
  - revert Hq. apply Forall_impl. intros b [Hb Hrow]. split.
    + rewrite Hrows. exact Hrow.
    + symmetry. exact Hb.
  - rewrite Hcols. exact Hks.
  - apply repeat_length.
Qed.

(** X8.  On a well-formed run with a query data set that is not empty,
    every score [evaluate] returns is at least 0, and at most 1 when the
    loader yields no more samples than the data set has. *)
Theorem evaluate_scores_are_between_0_and_1 (self : KNNEvaluator)
  (memory_loader query_loader : DataLoader Input) (w : World Input) (D : nat) :
  well_formed_run forward self memory_loader query_loader w D ->
  dataset_len query_loader <> 0%nat ->
  exists scores,
    fst (evaluate forward self memory_loader query_loader w) = Ok scores /\
    forall k s, dict_get k scores = Some s ->
      0 <= s /\
      ((samples (outputs forward (parameters (net w)) false (batches query_loader))
        <= dataset_len query_loader)%nat -> s <= 1).
Proof.
  intros Hwf Hn.
  destruct (evaluate_on_well_formed_run self memory_loader query_loader w D Hwf)
    as (bank & labels & _ & Hrun).
  set (qry := outputs forward (parameters (net w)) false (batches query_loader)) in *.
  destruct (fill_scores_ok (dataset_len query_loader)
              (fun k => total_correct self k bank labels qry)
              (num_neighbors self) [] [] Hn) as (d' & Hfill & Hin & Hout).
  cbn [length app] in Hfill.
  exists d'. split; [now rewrite Hrun|].
  intros k s Hs.
  destruct (in_dec Nat.eq_dec k (num_neighbors self)) as [Hk | Hk].
  - rewrite (Hin k Hk) in Hs. injection Hs as <-.
    assert (Hpos : 0 < INR (dataset_len query_loader)) by (apply lt_0_INR; lia).
    split.
    + apply Rmult_le_pos; [apply pos_INR|].
      left. now apply Rinv_0_lt_compat.
    + intros Hle.
      assert (Hc := total_correct_le_samples self k bank labels qry).
      apply Rmult_le_reg_r with (INR (dataset_len query_loader)); [exact Hpos|].
      unfold Rdiv. rewrite Rmult_assoc, Rinv_l, Rmult_1_r, Rmult_1_l by lra.
      apply le_INR. lia.
  - rewrite (Hout k Hk) in Hs. discriminate.
Qed.

(** X9.  On a well-formed run with a query data set that is not empty,
    the dictionary [evaluate] returns has a score for exactly the [k] of
    the neighbour list. *)
Theorem evaluate_scores_exactly_the_neighbour_list (self : KNNEvaluator)
  (memory_loader query_loader : DataLoader Input) (w : World Input) (D : nat) :
  well_formed_run forward self memory_loader query_loader w D ->
  dataset_len query_loader <> 0%nat ->
  exists scores,
    fst (evaluate forward self memory_loader query_loader w) = Ok scores /\
    forall k, In k (num_neighbors self) <-> dict_get k scores <> None.
Proof.
  intros Hwf Hn.
  destruct (evaluate_on_well_formed_run self memory_loader query_loader w D Hwf)
    as (bank & labels & _ & Hrun).
  set (qry := outputs forward (parameters (net w)) false (batches query_loader)) in *.
  destruct (fill_scores_ok (dataset_len query_loader)
              (fun k => total_correct self k bank labels qry)
              (num_neighbors self) [] [] Hn) as (d' & Hfill & Hin & Hout).
  cbn [length app] in Hfill.
  exists d'. split; [now rewrite Hrun|].
  intros k. split.
  - intros Hk. rewrite (Hin k Hk). discriminate.
  - intros Hk.
    destruct (in_dec Nat.eq_dec k (num_neighbors self)) as [Hk' | Hk']; [exact Hk'|].
    exfalso. apply Hk. now rewrite (Hout k Hk').
Qed.

(** X10.  The scores do not depend on how the query samples are cut
    into batches: on a well-formed run the score of [k] is the number of
    correct predictions over the query outputs and labels put end to
    end, divided by the length of the query data set. *)
Theorem evaluate_scores_ignore_the_batching (self : KNNEvaluator)
  (memory_loader query_loader : DataLoader Input) (w : World Input) (D : nat) :
  let qry := outputs forward (parameters (net w)) false (batches query_loader) in
  well_formed_run forward self memory_loader query_loader w D ->
  dataset_len query_loader <> 0%nat ->
  exists scores memory_bank memory_labels,
    fst (evaluate forward self memory_loader query_loader w) = Ok scores /\
    memory_of (outputs forward (parameters (net w)) false (batches memory_loader))
    = Ok (memory_bank, memory_labels) /\
    forall k, In k (num_neighbors self) ->
      dict_get k scores
      = Some (INR (count_correct (concat (map snd qry))
                     (map (predicted_class self k memory_bank memory_labels)
                          (normalize (concat (map fst qry)))))
              / INR (dataset_len query_loader)).
Proof.
  intros qry Hwf Hn.
  destruct (evaluate_on_well_formed_run self memory_loader query_loader w D Hwf)
    as (bank & labels & Hmem & Hrun).
  fold qry in Hrun.
  destruct (fill_scores_ok (dataset_len query_loader)
              (fun k => total_correct self k bank labels qry)
              (num_neighbors self) [] [] Hn) as (d' & Hfill & Hin & _).
  cbn [length app] in Hfill.
  exists d', bank, labels. split; [now rewrite Hrun|]. split; [exact Hmem|].
  intros k Hk. rewrite (Hin k Hk).
  rewrite total_correct_flat; [reflexivity|].
  destruct Hwf as (_ & _ & _ & _ & Hq & _).
  fold qry in Hq. revert Hq. apply Forall_impl.
  intros b [Hb _]. symmetry. exact Hb.
Qed.

(** X11.  On a well-formed run with a neighbour list that is not empty,
    a query data set of length 0 makes [evaluate] raise a division by
    zero instead of returning scores. *)
Theorem evaluate_divides_by_zero_on_empty_query_set (self : KNNEvaluator)
  (memory_loader query_loader : DataLoader Input) (w : World Input) (D : nat) :
  well_formed_run forward self memory_loader query_loader w D ->
  num_neighbors self <> [] ->
  dataset_len query_loader = 0%nat ->
  fst (evaluate forward self memory_loader query_loader w) = Raise ZeroDivisionError.
Proof.
  intros Hwf Hks Hn.
  destruct (evaluate_on_well_formed_run self memory_loader query_loader w D Hwf)
    as (bank & labels & _ & Hrun).
  rewrite Hrun, Hn.
  destruct (num_neighbors self) as [|k ks]; [contradiction|]. reflexivity.
Qed.

(** X12.  A network without parameters makes [evaluate] raise
    [StopIteration] at [next(net.parameters())], whatever the loaders
    hold; the network has been put in eval mode all the same. *)
Theorem evaluate_stops_on_network_without_parameters (self : KNNEvaluator)
  (memory_loader query_loader : DataLoader Input) (w : World Input) :
  parameters (net w) = [] ->
  evaluate forward self memory_loader query_loader w
  = (Raise StopIteration, after_evaluate w).
Proof.
  intros Hp. rewrite evaluate_run. now rewrite Hp.
Qed.

(** X13.  A memory loader that yields no batch makes [evaluate] raise
    the error of [torch.cat] on an empty list, before the query loader
    is read. *)
Theorem evaluate_fails_on_empty_memory_loader (self : KNNEvaluator)
  (memory_loader query_loader : DataLoader Input) (w : World Input) :
  parameters (net w) <> [] ->
  batches memory_loader = [] ->
  fst (evaluate forward self memory_loader query_loader w) = Raise EmptyCatError.
Proof.
  intros Hp Hb. rewrite evaluate_run. cbn [fst].
  destruct (parameters (net w)); [contradiction|].
  rewrite Hb. reflexivity.
Qed.

End EvaluateMore.

Lemma nth_concat_normalize_eq (mem : list (Mat * list Z)) (m : nat) :
  (m < length (concat (map fst mem)))%nat ->
  nth m (concat (map (fun b => normalize (fst b)) mem)) []
  = normalize_row (nth m (concat (map fst mem)) []).
Proof.
  intros Hm.
  assert (E : concat (map (fun b => normalize (fst b)) mem)
              = map normalize_row (concat (map fst mem))).
  { unfold normalize. rewrite concat_map, map_map. reflexivity. }
  rewrite E.
  rewrite (nth_indep _ [] (normalize_row [])) by (now rewrite length_map).
  apply map_nth.
Qed.

Section MemoryAlignment.

Variable Input : Type.
Variable forward : list Vec -> bool -> Input -> Mat.

(** X14.  Step 1 of [evaluate] keeps embeddings and labels aligned: when
    the outputs of the network are matrices with [D >= 1] columns and a
    row per label, the labels returned are the labels of the batches put
    end to end, there is a column per label, and column [m] of the
    memory bank is the normalisation of the [m]-th output row. *)
Theorem memory_bank_column_is_its_sample (bs : list (Batch Input))
  (w : World Input) (D : nat) :
  let outs := outputs forward (parameters (net w)) (training (net w)) bs in
  bs <> [] -> (0 < D)%nat ->
  well_shaped D outs ->
  exists memory_bank memory_labels,
    fst (build_memory forward bs w) = Ok (memory_bank, memory_labels) /\
    memory_labels = concat (map y bs) /\
    ncols memory_bank = length memory_labels /\
    forall m, (m < length memory_labels)%nat ->
      col m memory_bank = normalize_row (nth m (concat (map fst outs)) []).
Proof.
  intros outs Hne HD Hwf.
  destruct (build_memory_run Input forward bs w) as [xs Hrun].
  rewrite Hrun. cbn [fst]. fold outs.
  assert (Hne' : outs <> []).
  { unfold outs, outputs. destruct bs; [contradiction | discriminate]. }
  destruct (memory_of_ok D outs Hne' Hwf) as [Hmem Hpos].
  assert (HA := concat_normalize_is_matrix D outs Hwf).
  exists (transpose (concat (map (fun b => normalize (fst b)) outs))),
         (concat (map snd outs)).
  split; [exact Hmem|]. split; [|split].
  - unfold outs, outputs. now rewrite map_map.
  - now apply (ncols_transpose _ D).
  - intros m Hm.
    rewrite (col_transpose _ _ _ m HA Hm).
    apply nth_concat_normalize_eq.
    destruct HA as [HlenA _].
    assert (E : length (concat (map (fun b => normalize (fst b)) outs))
                = length (concat (map fst outs))).
    { clear. induction outs as [|b l IH]; [reflexivity|].
      cbn [map concat]. rewrite !length_app, IH.
      unfold normalize. now rewrite length_map. }
    unfold Mat, Vec in *. lia.
Qed.

End MemoryAlignment.

Section NormalizedEmbeddings.

Context {sorter : TorchSort}.
Variable Input : Type.
Variable forward : list Vec -> bool -> Input -> Mat.

(** C5, amended.  On a well-formed run with a query data set that is
    not empty, [evaluate] returns scores, and the embeddings that enter
    its similarity products are the normalised outputs of the network:
    - step 1, run on the network in eval mode, returns a memory bank of
      shape [(D, M)] with [M] labels, one per output row; column [m] of
      the bank is the normalisation of output row [m], and has norm 1
      when that row has a norm of at least [eps], and a norm below 1
      otherwise;
    - the score of every [k] counts the predictions made by [predict]
      from that bank for the query embeddings [queries], which are the
      normalisations of the query output rows, each of norm 1 when the
      row has a norm of at least [eps], and of norm below 1
      otherwise. *)
Theorem memory_bank_columns_have_unit_norm (self : KNNEvaluator)
  (memory_loader query_loader : DataLoader Input) (w : World Input) (D : nat) :
  let mem := outputs forward (parameters (net w)) false (batches memory_loader) in
  let qry := outputs forward (parameters (net w)) false (batches query_loader) in
  well_formed_run forward self memory_loader query_loader w D ->
  dataset_len query_loader <> 0%nat ->
  exists scores memory_bank memory_labels queries,
    fst (evaluate forward self memory_loader query_loader w) = Ok scores /\
    (forall w', parameters (net w') = parameters (net w) ->
                training (net w') = false ->
                fst (build_memory forward (batches memory_loader) w')
                = Ok (memory_bank, memory_labels)) /\
    is_matrix D (length memory_labels) memory_bank /\
    length (concat (map fst mem)) = length memory_labels /\
    (forall m, (m < length memory_labels)%nat ->
       col m memory_bank = normalize_row (nth m (concat (map fst mem)) []) /\
       (normalize_eps <= norm2 (nth m (concat (map fst mem)) []) ->
        norm2 (col m memory_bank) = 1) /\
       (norm2 (nth m (concat (map fst mem)) []) < normalize_eps ->
        norm2 (col m memory_bank) < 1)) /\
    Forall2 (fun raw z => z = normalize_row raw /\
                          (normalize_eps <= norm2 raw -> norm2 z = 1) /\
                          (norm2 raw < normalize_eps -> norm2 z < 1))
            (concat (map fst qry)) queries /\
    forall k, In k (num_neighbors self) ->
      dict_get k scores
      = Some (INR (count_correct (concat (map snd qry))
                     (map (predicted_class self k memory_bank memory_labels) queries))
              / INR (dataset_len query_loader)).
Proof.
  intros mem qry Hwf Hn.
  destruct (evaluate_on_well_formed_run Input forward self memory_loader
              query_loader w D Hwf) as (bank & labels & Hmem & Hrun).
  fold mem in Hmem. fold qry in Hrun.
  destruct (fill_scores_ok (dataset_len query_loader)
              (fun k => total_correct self k bank labels qry)
              (num_neighbors self) [] [] Hn) as (d' & Hfill & Hin & _).
  cbn [length app] in Hfill.
  destruct Hwf as (Hp & Hml & HD & Hshape & Hq & Hr & Hks).
  fold mem in Hshape. fold qry in Hq.
  assert (Hne : mem <> []).
  { unfold mem, outputs. destruct (batches memory_loader); [contradiction | discriminate]. }
  destruct (memory_of_ok D mem Hne Hshape) as [Hmem' Hpos].
  rewrite Hmem' in Hmem. injection Hmem as <- <-.
  assert (HA := concat_normalize_is_matrix D mem Hshape).
  assert (HlenA : length (concat (map fst mem)) = length (concat (map snd mem))).
  { destruct HA as [HlenA _]. rewrite <- HlenA.
    clear. induction mem as [|b l IH]; [reflexivity|].
    cbn [map concat]. rewrite !length_app, IH.
    unfold normalize. now rewrite length_map. }
  exists d', (transpose (concat (map (fun b => normalize (fst b)) mem))),
         (concat (map snd mem)), (normalize (concat (map fst qry))).
  split; [rewrite Hrun; exact Hfill|].
  split.
  { intros w' Hp' Ht'.
    destruct (build_memory_run Input forward (batches memory_loader) w') as [xs Hrun'].
    rewrite Hrun'. cbn [fst]. rewrite Hp', Ht'. exact Hmem'. }
  split; [now apply transpose_is_matrix|].
  split; [exact HlenA|].
  split.
  { intros m Hm.
    assert (E : col m (transpose (concat (map (fun b => normalize (fst b)) mem)))
                = normalize_row (nth m (concat (map fst mem)) [])).
    { rewrite (col_transpose _ _ _ m HA Hm).
      apply nth_concat_normalize_eq. unfold Mat, Vec in *. lia. }
    split; [exact E|].
    split; intros Hnorm; rewrite E.
    - now apply normalize_row_unit.
    - now apply normalize_row_below_eps. }
  split.
  { unfold normalize. induction (concat (map fst qry)) as [|raw l IH];
      constructor; [|exact IH].
    split; [reflexivity|].
    split; [apply normalize_row_unit | apply normalize_row_below_eps]. }
  intros k Hk. rewrite (Hin k Hk).
  rewrite total_correct_flat; [reflexivity|].
  revert Hq. apply Forall_impl.
  intros b [Hb _]. symmetry. exact Hb.
Qed.

End NormalizedEmbeddings.

(** * Further properties of datasets/brain.py *)

Lemma mapM_In {A B : Type} (f : A -> result B) (l : list A) (bs : list B) :
  mapM f l = Ok bs -> forall b, In b bs -> exists a, In a l /\ f a = Ok b.
Proof.
  revert bs. induction l as [|a l IH]; intros bs H b Hb.
  - injection H as <-. contradiction.
  - cbn [mapM] in H.
    destruct (f a) as [b0|e] eqn:Ea; [|discriminate]. cbn [bind] in H.
    destruct (mapM f l) as [bs0|e]; [|discriminate]. cbn [bind] in H.
    injection H as <-.
    destruct Hb as [<- | Hb].
    + exists a. split; [now left | assumption].
    + destruct (IH bs0 eq_refl b Hb) as [a' [Ha' Hf]].
      exists a'. split; [now right | assumption].
Qed.

Module BrainMoreFacts.

Import Brain BrainMore.

Lemma iloc_In (df : list Row) (idx : list nat) (rows : list Row) :
  iloc df idx = Ok rows -> incl rows df.
Proof.
  intros H r Hr. unfold iloc in H.
  destruct (mapM_In _ _ _ H r Hr) as [i [_ Hi]].
  destruct (nth_error df i) as [r'|] eqn:E; [|discriminate].
  injection Hi as <-. now apply nth_error_In with i.
Qed.

Section Processing.

Variable path_join : string -> string -> string -> string.
Variable cv_split : nat -> nat -> list string -> list Z -> list string
                    -> result (list (list nat * list nat)).
Variable compute_class_weight : list Z -> result (list R).

Lemma split_info_rows (self : BrainProcessor) (n_splits : nat) (n_cv : Z)
  (train_info test_info u_train_info : list Row) :
  split_info cv_split self n_splits n_cv = Ok (train_info, test_info, u_train_info) ->
  incl train_info (data_info self) /\
  incl test_info (data_info self) /\
  incl u_train_info (u_data_info self).
Proof.
  unfold split_info.
  destruct (n_splits <? 2)%nat; [discriminate|].
  destruct (negb _); [discriminate|].
  destruct (cv_split _ _ _ _ _) as [folds|e]; [|discriminate].
  cbn [bind].
  destruct (nth_error (map fst folds) _) as [tr|]; [|discriminate].
  cbn [bind].
  destruct (nth_error (map snd folds) _) as [te|]; [|discriminate].
  cbn [bind].
  destruct (iloc (data_info self) tr) as [tri|e] eqn:Etr; [|discriminate].
  cbn [bind].
  destruct (iloc (data_info self) te) as [tei|e] eqn:Ete; [|discriminate].
  cbn [bind].
  intros H. injection H as <- <- <-.
  repeat split.
  - now apply iloc_In with tr.
  - now apply iloc_In with te.
  - intros r Hr. apply filter_In in Hr. tauto.
Qed.

Lemma process_inv (self self' : BrainProcessor) (n_splits : nat) (n_cv : Z)
  (datasets : Datasets) :
  process path_join cv_split compute_class_weight self n_splits n_cv
  = Ok (datasets, self') ->
  exists train_info test_info u_train_info,
    split_info cv_split self n_splits n_cv = Ok (train_info, test_info, u_train_info) /\
    datasets = {| train := parse_data path_join self train_info;
                  test := parse_data path_join self test_info;
                  u_train := parse_data path_join self u_train_info |} /\
    u_data_info self' = u_train_info /\
    data_info self' = data_info self /\
    random_state self' = random_state self /\
    root self' = root self.
Proof.
  unfold process.
  destruct (split_info cv_split self n_splits n_cv) as [[[tri tei] ui]|e] eqn:Es;
    [|discriminate].
  cbn [bind].
  destruct (compute_class_weight _) as [cw|e]; [|discriminate].
  cbn [bind].
  intros H. injection H as <- <-.
  exists tri, tei, ui. repeat split; reflexivity.
Qed.

Lemma processor_init_inv (table : list CsvRow) (root0 data_type : string)
  (mci_only : bool) (rs : nat) (self : BrainProcessor) :
  processor_init table root0 data_type mci_only rs = Ok self ->
  (forall r, In r (data_info self) ->
     (Conv r = 0 \/ Conv r = 1)%Z /\ notna (cell_of data_type r) = true) /\
  (forall r, In r (u_data_info self) ->
     Conv r = (-1)%Z /\ notna (cell_of data_type r) = true).
Proof.
  unfold processor_init.
  destruct (negb _); [discriminate|].
  intros H. injection H as <-. cbn [data_info u_data_info].
  set (info1 := if mci_only then filter (fun r => (MCI r =? 1)%Z) (filter IS_FILE table)
                else filter IS_FILE table).
  assert (Hcell : forall r,
            In r (if (data_type =? "mri")%string
                  then filter (fun r => notna (MRI (row r))) info1
                  else filter (fun r => notna (PET (row r))) info1) ->
            notna (cell_of data_type (row r)) = true).
  { intros r Hr. unfold cell_of.
    destruct (data_type =? "mri")%string; apply filter_In in Hr; tauto. }
  split; intros r Hr; apply in_map_iff in Hr; destruct Hr as [c [<- Hc]];
    apply filter_In in Hc; destruct Hc as [Hc Hconv].
  - split; [|now apply Hcell].
    apply orb_true_iff in Hconv. destruct Hconv as [E | E];
      apply Z.eqb_eq in E; auto.
  - split; [|now apply Hcell].
    now apply Z.eqb_eq in Hconv.
Qed.

Lemma paths_of_parse_data (self : BrainProcessor) (data_type : string)
  (info : list Row) :
  Forall (fun r => notna (cell_of data_type r) = true) info ->
  Forall (fun c => c <> NaN) (paths_of data_type (parse_data path_join self info)).
Proof.
  intros H. unfold paths_of, parse_data, cell_of in *.
  destruct (data_type =? "mri")%string; cbn [mri pet];
    apply Forall_map; revert H; apply Forall_impl; intros r Hr.
  - destruct (MRI r); [discriminate | discriminate].
  - destruct (PET r); [discriminate | discriminate].
Qed.

(** X16.  The data sets of a processor built by [__init__] and split by
    [process]: the labels of the train and test sets are 0 or 1, the
    labels of the unlabeled set are all -1, and no path of the
    processor's data type is NaN, in any of the three. *)
Theorem processed_datasets_are_clean (table : list CsvRow) (root0 data_type : string)
  (mci_only : bool) (rs : nat) (self self' : BrainProcessor)
  (n_splits : nat) (n_cv : Z) (datasets : Datasets) :
  processor_init table root0 data_type mci_only rs = Ok self ->
  process path_join cv_split compute_class_weight self n_splits n_cv
  = Ok (datasets, self') ->
  Forall (fun l => l = 0 \/ l = 1)%Z (y (train datasets)) /\
  Forall (fun l => l = 0 \/ l = 1)%Z (y (test datasets)) /\
  Forall (fun l => l = (-1)%Z) (y (u_train datasets)) /\
  Forall (fun c => c <> NaN) (paths_of data_type (train datasets)) /\
  Forall (fun c => c <> NaN) (paths_of data_type (test datasets)) /\
  Forall (fun c => c <> NaN) (paths_of data_type (u_train datasets)).
Proof.
  intros Hinit Hproc.
  destruct (processor_init_inv _ _ _ _ _ _ Hinit) as [Hd Hu].
  destruct (process_inv _ _ _ _ _ Hproc) as (tri & tei & ui & Hs & -> & _).
  destruct (split_info_rows _ _ _ _ _ _ Hs) as (Htr & Hte & Hui).
  cbn [train test u_train].
  assert (Hlab : forall info, incl info (data_info self) ->
            Forall (fun l => l = 0 \/ l = 1)%Z (y (parse_data path_join self info))).
  { intros info Hincl. cbn [parse_data y]. apply Forall_map, Forall_forall.
    intros r Hr. apply Hd. now apply Hincl. }
  assert (Hpath : forall info,
            (forall r, In r info -> notna (cell_of data_type r) = true) ->
            Forall (fun c => c <> NaN)
                   (paths_of data_type (parse_data path_join self info))).
  { intros info Hall. apply paths_of_parse_data. now apply Forall_forall. }
  repeat split.
  - now apply Hlab.
  - now apply Hlab.
  - cbn [parse_data y]. apply Forall_map, Forall_forall.
    intros r Hr. apply Hu. now apply Hui.
  - apply Hpath. intros r Hr. apply Hd. now apply Htr.
  - apply Hpath. intros r Hr. apply Hd. now apply Hte.
  - apply Hpath. intros r Hr. apply Hu. now apply Hui.
Qed.

(** X17.  [process] keeps the filtered unlabeled table in the
    processor: after a second call, the unlabeled table is part of the
    table the first call left, and holds no subject of the test set of
    either call.  The labeled table is the same in both calls. *)
Theorem process_twice_accumulates_exclusions (self self1 self2 : BrainProcessor)
  (n1 n2 : nat) (cv1 cv2 : Z) (ds1 ds2 : Datasets) :
  process path_join cv_split compute_class_weight self n1 cv1 = Ok (ds1, self1) ->
  process path_join cv_split compute_class_weight self1 n2 cv2 = Ok (ds2, self2) ->
  exists train1 test1 u1 train2 test2 u2,
    split_info cv_split self n1 cv1 = Ok (train1, test1, u1) /\
    split_info cv_split self1 n2 cv2 = Ok (train2, test2, u2) /\
    data_info self1 = data_info self /\
    u_data_info self2 = u2 /\
    incl u2 u1 /\
    forall ru rt, In ru u2 -> In rt (test1 ++ test2) -> RID ru <> RID rt.
Proof.
  intros H1 H2.
  destruct (process_inv _ _ _ _ _ H1) as (tr1 & te1 & u1 & Hs1 & _ & Hu1 & Hd1 & _).
  destruct (process_inv _ _ _ _ _ H2) as (tr2 & te2 & u2 & Hs2 & _ & Hu2 & _).
  exists tr1, te1, u1, tr2, te2, u2.
  repeat split; try assumption.
  - destruct (split_info_rows _ _ _ _ _ _ Hs2) as (_ & _ & Hincl).
    now rewrite Hu1 in Hincl.
  - intros ru rt Hru Hrt.
    destruct (BrainFacts.split_info_disjoint cv_split _ _ _ _ _ _ Hs1) as [_ Hdis1].
    destruct (BrainFacts.split_info_disjoint cv_split _ _ _ _ _ _ Hs2) as [_ Hdis2].
    apply in_app_or in Hrt. destruct Hrt as [Hrt | Hrt].
    + apply Hdis1; [|assumption].
      destruct (split_info_rows _ _ _ _ _ _ Hs2) as (_ & _ & Hincl).
      rewrite Hu1 in Hincl. now apply Hincl.
    + now apply Hdis2.
Qed.

End Processing.

Section Items.

Variables Image Rng : Type.
Variable files : string -> option Image.
Variable path_join : string -> string -> string -> string.

(** X18.  A MoCo data set made from a parsed table: it has an item per
    row, and the item at the place of a row with MRI identifier [id]
    holds the two views of the file [root/template/FS7/id.pkl] and the
    [Conv] of that row as its label. *)
Theorem item_of_parsed_table (self : BrainProcessor) (info : list Row)
  (qt kt : Image -> Rng -> Image * Rng) (i : nat) (g : Rng)
  (r : Row) (id : string) (img : Image) :
  nth_error info i = Some r ->
  MRI r = Str id ->
  files (path_join (root self) "template/FS7" (id ++ ".pkl")) = Some img ->
  exists ds,
    moco_init (parse_data path_join self info) "mri" qt kt = Ok ds /\
    len ds = length info /\
    getitem files ds i g
    = (Ok {| x1 := fst (qt img g);
             x2 := fst (kt img (snd (qt img g)));
             item_y := Conv r;
             idx := i |},
       snd (kt img (snd (qt img g)))).
Proof.
  intros Hi Hid Hf.
  eexists. split; [reflexivity|]. split.
  - unfold len. cbn [labels parse_data y]. apply length_map.
  - unfold getitem, load_image.
    cbn [paths labels parse_data mri y query_transform key_transform].
    rewrite !nth_error_map, Hi. cbn [option_map]. rewrite Hid.
    unfold str2mri. rewrite Hf.
    destruct (qt img g) as [v1 g1]. cbn [fst snd].
    destruct (kt img g1) as [v2 g2]. reflexivity.
Qed.

(** X19.  When the file of an item cannot be loaded (no such index, a
    NaN path, a missing file), [BrainMoCo.__getitem__] raises without
    running a transform: the state of the random generators is
    untouched. *)
Theorem getitem_failure_draws_nothing (self : BrainMoCo Image Rng) (i : nat) (g : Rng) :
  (forall path, nth_error (paths self) i = Some path ->
                raises (load_image files path)) ->
  raises (fst (getitem files self i g)) /\ snd (getitem files self i g) = g.
Proof.
  intros H. unfold getitem.
  destruct (nth_error (paths self) i) as [path|].
  - destruct (H path eq_refl) as [e He]. rewrite He.
    split; [now exists e | reflexivity].
  - split; [now exists IndexError | reflexivity].
Qed.

End Items.

End BrainMoreFacts.

Module MixUpFacts.

Import Brain BrainMore.

Lemma one_hot2_inv (l : Z) (v : Vec) :
  one_hot2 l = Ok v ->
  (v = [1; 0] /\ (l = 0 \/ l = -2)%Z) \/ (v = [0; 1] /\ (l = 1 \/ l = -1)%Z).
Proof.
  unfold one_hot2.
  destruct ((l =? 0)%Z || (l =? -2)%Z)%bool eqn:E0.
  - intros H. injection H as <-. left. split; [reflexivity|].
    apply orb_true_iff in E0. destruct E0 as [E | E]; apply Z.eqb_eq in E; auto.
  - destruct ((l =? 1)%Z || (l =? -1)%Z)%bool eqn:E1; [|discriminate].
    intros H. injection H as <-. right. split; [reflexivity|].
    apply orb_true_iff in E1. destruct E1 as [E | E]; apply Z.eqb_eq in E; auto.
Qed.

Section MixUp.

Variables Image Rng : Type.
Variable files : string -> option Image.
Variable randint : Z -> Rng -> result nat * Rng.
Variable beta : R -> Rng -> result R * Rng.
Variable mix : R -> Image -> Image -> result Image.

(** what a returned item was made of *)
Lemma mx_getitem_inv (self : BrainMixUp Image Rng) (i : nat) (g g' : Rng)
  (item : MixItem Image) :
  mx_getitem files randint beta mix self i g = (Ok item, g') ->
  exists l y0 lm ym lam g1 g2,
    nth_error (mx_labels self) i = Some l /\
    one_hot2 l = Ok y0 /\
    nth_error (mx_labels self) (mx_idx_mix item) = Some lm /\
    one_hot2 lm = Ok ym /\
    beta (mx_alpha self) g1 = (Ok lam, g2) /\
    mx_y item = y0 /\
    mx_y_mix item = mix_labels lam y0 ym /\
    mx_idx item = i.
Proof.
  unfold mx_getitem, gbind, glift, gret, index.
  intros H.
  destruct (nth_error (mx_labels self) i) as [l|] eqn:El; [|discriminate].
  destruct (one_hot2 l) as [y0|] eqn:Ey; [|discriminate].
  destruct (nth_error (mx_paths self) i) as [path|]; [|discriminate].
  destruct (mx_load Image files path) as [img|]; [|discriminate].
  destruct (apply_transform Image Rng self img g) as [[img1|] ga]; [|discriminate].
  destruct (randint _ ga) as [[j|] gb]; [|discriminate].
  destruct (nth_error (mx_labels self) j) as [lm|] eqn:Elm; [|discriminate].
  destruct (one_hot2 lm) as [ym|] eqn:Eym; [|discriminate].
  destruct (nth_error (mx_paths self) j) as [pathm|]; [|discriminate].
  destruct (mx_load Image files pathm) as [imgm|]; [|discriminate].
  destruct (apply_transform Image Rng self imgm gb) as [[imgm1|] gc]; [|discriminate].
  destruct (beta (mx_alpha self) gc) as [[lam|] gd] eqn:Eb; [|discriminate].
  destruct (mix lam img1 imgm1) as [mixed|]; [|discriminate].
  injection H as <- <-. cbn [mx_y mx_y_mix mx_idx mx_idx_mix].
  exists l, y0, lm, ym, lam, gc, gd. repeat split; assumption.
Qed.

(** X20.  When [np.random.beta] returns a number between 0 and 1, the
    two label vectors of a mixed item are vectors of two probabilities:
    non-negative entries that sum to 1. *)
Theorem mixup_labels_are_distributions (self : BrainMixUp Image Rng) (i : nat)
  (g g' : Rng) (item : MixItem Image) :
  (forall a g0 lam g1, beta a g0 = (Ok lam, g1) -> 0 <= lam <= 1) ->
  mx_getitem files randint beta mix self i g = (Ok item, g') ->
  is_distribution2 (mx_y item) /\ is_distribution2 (mx_y_mix item).
Proof.
  intros Hbeta H.
  destruct (mx_getitem_inv _ _ _ _ _ H)
    as (l & y0 & lm & ym & lam & g1 & g2 & _ & Hy0 & _ & Hym & Hb & -> & -> & _).
  specialize (Hbeta _ _ _ _ Hb).
  destruct (one_hot2_inv _ _ Hy0) as [[-> _] | [-> _]];
    destruct (one_hot2_inv _ _ Hym) as [[-> _] | [-> _]];
    (split;
     [ eexists; eexists; split; [reflexivity | lra]
     | unfold mix_labels; cbn [map2];
       eexists; eexists; split; [reflexivity | lra] ]).
Qed.

(** X21.  When the sample drawn for the mix has the class of the sample
    asked for, the mixed label is the label, whatever [lam]. *)
Theorem mixup_of_same_class_keeps_label (self : BrainMixUp Image Rng) (i : nat)
  (g g' : Rng) (item : MixItem Image) (l lm : Z) :
  mx_getitem files randint beta mix self i g = (Ok item, g') ->
  nth_error (mx_labels self) i = Some l ->
  nth_error (mx_labels self) (mx_idx_mix item) = Some lm ->
  one_hot2 l = one_hot2 lm ->
  mx_y_mix item = mx_y item.
Proof.
  intros H Hl Hlm Hsame.
  destruct (mx_getitem_inv _ _ _ _ _ H)
    as (l' & y0 & lm' & ym & lam & g1 & g2 & Hl' & Hy0 & Hlm' & Hym & _ & -> & -> & _).
  rewrite Hl in Hl'. injection Hl' as <-.
  rewrite Hlm in Hlm'. injection Hlm' as <-.
  rewrite Hsame, Hym in Hy0. injection Hy0 as <-.
  destruct (one_hot2_inv _ _ Hym) as [[-> _] | [-> _]];
    unfold mix_labels; cbn [map2]; repeat f_equal; ring.
Qed.

(** X22.  The label vector of an item is indexed by the label with
    Python's negative indices: a sample with the sentinel label -1
    gets the vector of class 1, as a sample labelled 1 does, and a
    sample labelled 0 the vector of class 0. *)
Theorem mixup_label_vector (self : BrainMixUp Image Rng) (i : nat)
  (g g' : Rng) (item : MixItem Image) (l : Z) :
  mx_getitem files randint beta mix self i g = (Ok item, g') ->
  nth_error (mx_labels self) i = Some l ->
  ((l = 1 \/ l = -1)%Z -> mx_y item = [0; 1]) /\
  (l = 0%Z -> mx_y item = [1; 0]).
Proof.
  intros H Hl.
  destruct (mx_getitem_inv _ _ _ _ _ H)
    as (l' & y0 & lm & ym & lam & g1 & g2 & Hl' & Hy0 & _ & _ & _ & -> & _).
  rewrite Hl in Hl'. injection Hl' as <-.
  destruct (one_hot2_inv _ _ Hy0) as [[-> Hc] | [-> Hc]]; split; intros Hlab;
    try reflexivity; exfalso; lia.
Qed.

(** X23.  An index without a label, or with a label outside of -2 .. 1
    (a third class, say), makes [__getitem__] raise an index error
    before a file is read or a random number drawn. *)
Theorem mixup_rejects_other_labels (self : BrainMixUp Image Rng) (i : nat) (g : Rng) :
  (forall l, nth_error (mx_labels self) i = Some l -> ~ (-2 <= l <= 1)%Z) ->
  mx_getitem files randint beta mix self i g = (Raise IndexError, g).
Proof.
  intros H. unfold mx_getitem, gbind, glift, index.
  destruct (nth_error (mx_labels self) i) as [l|]; [|reflexivity].
  specialize (H l eq_refl). unfold one_hot2.
  replace ((l =? 0)%Z || (l =? -2)%Z)%bool with false.
  - replace ((l =? 1)%Z || (l =? -1)%Z)%bool with false; [reflexivity|].
    symmetry. apply orb_false_iff. split; apply Z.eqb_neq; lia.
  - symmetry. apply orb_false_iff. split; apply Z.eqb_neq; lia.
Qed.

End MixUp.

End MixUpFacts.

(** * The further properties at concrete inputs *)

Lemma predict_returns_permutations_of_the_classes_witness :
  length [[0; 1]%nat] = length [[1]] /\
  Forall (fun r => Permutation r (seq 0 2)) [[0; 1]%nat].
Proof.
  apply (predict_returns_permutations_of_the_classes (sorter := stable_sort)
           tie_evaluator 2 [[1]] [[1; 1]] [0; 1]%Z [[0; 1]%nat]).
  exact stable_sort_predicts_lower_index.
Defined.

Lemma predict_of_joined_batches_witness :
  exists r1 r2,
    predict (sorter := stable_sort) tie_evaluator 2 [[1; 0]] two_entry_bank [0; 1]%Z
    = Ok r1 /\
    predict (sorter := stable_sort) tie_evaluator 2 [[0; 1]] two_entry_bank [0; 1]%Z
    = Ok r2 /\
    predict (sorter := stable_sort) tie_evaluator 2 ([[1; 0]] ++ [[0; 1]])
            two_entry_bank [0; 1]%Z
    = Ok (r1 ++ r2).
Proof.
  apply (predict_of_joined_batches (sorter := stable_sort)).
  - repeat constructor.
  - reflexivity.
  - repeat constructor; simpl; lia.
  - simpl. lia.
Defined.

Lemma predict_rejects_wrong_dimension_witness :
  predict (sorter := stable_sort) tie_evaluator 1 [[1; 0; 0]; [0; 1; 0]] two_entry_bank
          [0; 1]%Z
  = Raise ShapeError.
Proof.
  apply (predict_rejects_wrong_dimension (sorter := stable_sort)
           tie_evaluator 1 [[1; 0; 0]; [0; 1; 0]] two_entry_bank [0; 1]%Z 3%nat).
  - discriminate.
  - repeat constructor.
  - simpl. lia.
  - lia.
  - simpl. lia.
Defined.

Lemma predict_rejects_label_out_of_range_witness :
  predict (sorter := stable_sort) tie_evaluator 1 [[1]] [[1]] [(-1)%Z]
  = Raise IndexError.
Proof.
  apply (predict_rejects_label_out_of_range (sorter := stable_sort)
           tie_evaluator 1 [[1]] [[1]] [(-1)%Z] [1] 0%nat).
  - repeat constructor.
  - reflexivity.
  - left. reflexivity.
  - left. reflexivity.
  - simpl. lia.
Defined.

Lemma predicted_class_is_a_neighbour_label_witness :
  exists N i,
    is_top_k (cos_sims [1; 0] two_entry_bank) 1 N /\
    In i N /\
    nth i [0; 1]%Z 0%Z
    = Z.of_nat (predicted_class (sorter := stable_sort) tie_evaluator 1
                                two_entry_bank [0; 1]%Z [1; 0]).
Proof.
  apply (predicted_class_is_a_neighbour_label (sorter := stable_sort)).
  - reflexivity.
  - reflexivity.
  - repeat constructor; simpl; lia.
  - simpl. lia.
Defined.

Lemma one_neighbour_predicts_label_of_nearest_witness :
  exists i,
    (i < ncols two_entry_bank)%nat /\
    (forall j, (j < ncols two_entry_bank)%nat ->
               nth j (cos_sims [1; 0] two_entry_bank) 0
               <= nth i (cos_sims [1; 0] two_entry_bank) 0) /\
    nth i [0; 1]%Z 0%Z
    = Z.of_nat (predicted_class (sorter := stable_sort) tie_evaluator 1
                                two_entry_bank [0; 1]%Z [1; 0]).
Proof.
  apply (one_neighbour_predicts_label_of_nearest (sorter := stable_sort)).
  - unfold tie_evaluator, default_temperature. simpl. lra.
  - reflexivity.
  - reflexivity.
  - repeat constructor; simpl; lia.
  - simpl. lia.
Defined.

Lemma normalize_row_idempotent_witness :
  normalize_row (normalize_row [1; 0]) = normalize_row [1; 0].
Proof.
  apply normalize_row_idempotent.
  unfold norm2. cbn [map Rsum fold_right].
  replace (1 * 1 + (0 * 0 + 0)) with 1 by lra.
  rewrite sqrt_1. unfold normalize_eps. lra.
Defined.


Lemma unnormalised_run_is_well_formed :
  well_formed_run unnormalised_forward one_nn_evaluator
                  one_batch_loader one_batch_loader some_world 2.
Proof.
  unfold well_formed_run. repeat split; try discriminate; try lia;
    repeat constructor; simpl; lia.
Qed.

Lemma memory_bank_columns_have_unit_norm_witness :
  exists scores memory_bank (memory_labels : list Z) queries,
    fst (evaluate (sorter := stable_sort) unnormalised_forward one_nn_evaluator
                  one_batch_loader one_batch_loader some_world) = Ok scores /\
    is_matrix 2 (length memory_labels) memory_bank /\
    col 0 memory_bank = normalize_row [3; 4] /\
    Forall2 (fun raw z => z = normalize_row raw /\
                          (normalize_eps <= norm2 raw -> norm2 z = 1) /\
                          (norm2 raw < normalize_eps -> norm2 z < 1))
            [[3; 4]] queries.
Proof.
  destruct (memory_bank_columns_have_unit_norm (sorter := stable_sort) unit
              unnormalised_forward one_nn_evaluator one_batch_loader
              one_batch_loader some_world 2)
    as (scores & bank & labels & queries & H1 & H2 & H3 & H4 & H5 & H6 & _).
  - exact unnormalised_run_is_well_formed.
  - discriminate.
  - exists scores, bank, labels, queries.
    split; [exact H1|]. split; [exact H3|]. split; [|exact H6].
    apply (H5 0%nat). rewrite <- H4. simpl. lia.
Defined.

Lemma toy_run_is_well_formed :
  well_formed_run unit_forward one_nn_evaluator
                  one_batch_loader one_batch_loader some_world 2.
Proof.
  unfold well_formed_run. repeat split; try discriminate; try lia;
    repeat constructor; simpl; lia.
Qed.

Lemma toy_run_without_query_set_is_well_formed :
  well_formed_run unit_forward one_nn_evaluator
                  one_batch_loader empty_loader some_world 2.
Proof.
  unfold well_formed_run. repeat split; try discriminate; try lia;
    repeat constructor; simpl; lia.
Qed.

Lemma evaluate_scores_are_between_0_and_1_witness :
  exists scores,
    fst (evaluate (sorter := stable_sort) unit_forward one_nn_evaluator
                  one_batch_loader one_batch_loader some_world) = Ok scores /\
    forall k s, dict_get k scores = Some s ->
      0 <= s /\
      ((samples (outputs unit_forward (parameters (net some_world)) false
                         (batches one_batch_loader))
        <= dataset_len one_batch_loader)%nat -> s <= 1).
Proof.
  apply (evaluate_scores_are_between_0_and_1 (sorter := stable_sort) unit
           unit_forward one_nn_evaluator one_batch_loader one_batch_loader
           some_world 2).
  - exact toy_run_is_well_formed.
  - discriminate.
Defined.

Lemma evaluate_scores_exactly_the_neighbour_list_witness :
  exists scores,
    fst (evaluate (sorter := stable_sort) unit_forward one_nn_evaluator
                  one_batch_loader one_batch_loader some_world) = Ok scores /\
    forall k, In k (num_neighbors one_nn_evaluator) <-> dict_get k scores <> None.
Proof.
  apply (evaluate_scores_exactly_the_neighbour_list (sorter := stable_sort) unit
           unit_forward one_nn_evaluator one_batch_loader one_batch_loader
           some_world 2).
  - exact toy_run_is_well_formed.
  - discriminate.
Defined.

Lemma evaluate_scores_ignore_the_batching_witness :
  exists scores,
    fst (evaluate (sorter := stable_sort) unit_forward one_nn_evaluator
                  one_batch_loader one_batch_loader some_world) = Ok scores.
Proof.
  destruct (evaluate_scores_ignore_the_batching (sorter := stable_sort) unit
              unit_forward one_nn_evaluator one_batch_loader
              one_batch_loader some_world 2) as (scores & _ & _ & H & _).
  - exact toy_run_is_well_formed.
  - discriminate.
  - exists scores. exact H.
Defined.

Lemma evaluate_divides_by_zero_on_empty_query_set_witness :
  fst (evaluate (sorter := stable_sort) unit_forward one_nn_evaluator
                one_batch_loader empty_loader some_world)
  = Raise ZeroDivisionError.
Proof.
  apply (evaluate_divides_by_zero_on_empty_query_set (sorter := stable_sort) unit
           unit_forward one_nn_evaluator one_batch_loader empty_loader
           some_world 2).
  - exact toy_run_without_query_set_is_well_formed.
  - discriminate.
  - reflexivity.
Defined.

Lemma evaluate_stops_on_network_without_parameters_witness :
  evaluate (sorter := stable_sort) unit_forward one_nn_evaluator
           one_batch_loader one_batch_loader no_parameter_world
  = (Raise StopIteration, after_evaluate no_parameter_world).
Proof.
  apply (evaluate_stops_on_network_without_parameters (sorter := stable_sort)).
  reflexivity.
Defined.

Lemma evaluate_fails_on_empty_memory_loader_witness :
  fst (evaluate (sorter := stable_sort) unit_forward one_nn_evaluator
                empty_loader one_batch_loader some_world)
  = Raise EmptyCatError.
Proof.
  apply (evaluate_fails_on_empty_memory_loader (sorter := stable_sort)).
  - discriminate.
  - reflexivity.
Defined.

Lemma memory_bank_column_is_its_sample_witness :
  exists memory_bank memory_labels,
    fst (build_memory unit_forward one_batch some_world)
    = Ok (memory_bank, memory_labels) /\
    memory_labels = concat (map y one_batch) /\
    ncols memory_bank = length memory_labels /\
    forall m, (m < length memory_labels)%nat ->
      col m memory_bank
      = normalize_row
          (nth m (concat (map fst (outputs unit_forward
                                           (parameters (net some_world))
                                           (training (net some_world)) one_batch)))
               []).
Proof.
  apply (memory_bank_column_is_its_sample unit unit_forward
           one_batch some_world 2).
  - discriminate.
  - lia.
  - repeat constructor.
Defined.

Lemma processed_datasets_are_clean_witness :
  exists datasets self',
    Brain.process toy_join toy_split toy_class_weight toy_processor 2 0
    = Ok (datasets, self') /\
    Forall (fun l => l = (-1)%Z) (Brain.y (Brain.u_train datasets)) /\
    Forall (fun c => c <> Brain.NaN) (BrainMore.paths_of "mri" (Brain.train datasets)).
Proof.
  assert (Hinit : BrainMore.processor_init toy_table "root" "mri" false 2022
                  = Ok toy_processor) by reflexivity.
  assert (Hres : exists ds s',
             Brain.process toy_join toy_split toy_class_weight toy_processor 2 0
             = Ok (ds, s')) by (eexists; eexists; reflexivity).
  destruct Hres as (ds & s' & Hres).
  destruct (BrainMoreFacts.processed_datasets_are_clean
              toy_join toy_split toy_class_weight toy_table "root" "mri" false 2022%nat
              toy_processor s' 2%nat 0%Z ds Hinit Hres)
    as (_ & _ & Hu & Htr & _).
  exists ds, s'. repeat split; assumption.
Defined.

Lemma process_twice_accumulates_exclusions_witness :
  exists s1 s2 ds1 ds2,
    Brain.process toy_join toy_split toy_class_weight toy_processor 2 0 = Ok (ds1, s1) /\
    Brain.process toy_join toy_split toy_class_weight s1 2 1 = Ok (ds2, s2) /\
    Brain.data_info s1 = Brain.data_info toy_processor /\
    incl (Brain.u_data_info s2) (Brain.u_data_info s1).
Proof.
  assert (H1 : exists ds s',
             Brain.process toy_join toy_split toy_class_weight toy_processor 2 0
             = Ok (ds, s')) by (eexists; eexists; reflexivity).
  destruct H1 as (ds1 & s1 & H1).
  assert (H2 : exists ds s',
             Brain.process toy_join toy_split toy_class_weight s1 2 1
             = Ok (ds, s')).
  { cbv in H1. injection H1 as <- <-. eexists; eexists; reflexivity. }
  destruct H2 as (ds2 & s2 & H2).
  destruct (BrainMoreFacts.process_twice_accumulates_exclusions
              toy_join toy_split toy_class_weight toy_processor s1 s2
              2%nat 2%nat 0%Z 1%Z ds1 ds2 H1 H2)
    as (tr1 & te1 & u1 & tr2 & te2 & u2 & Hs1 & Hs2 & Hd & Hu2 & Hincl & _).
  exists s1, s2, ds1, ds2. repeat split; try assumption.
  destruct (BrainMoreFacts.process_inv _ _ _ _ _ _ _ _ H1) as (a & b & c & Hs1' & _ & Hu1 & _).
  rewrite Hs1 in Hs1'. injection Hs1' as _ _ <-.
  rewrite Hu1, Hu2. exact Hincl.
Defined.

Lemma item_of_parsed_table_witness :
  exists ds,
    Brain.moco_init (Brain.parse_data toy_join toy_processor
                                      (Brain.data_info toy_processor))
                    "mri" (fun img g => ((img + g)%nat, S g))
                    (fun img g => ((img * g)%nat, S g)) = Ok ds /\
    Brain.len ds = 2%nat /\
    Brain.getitem toy_files ds 0%nat 2%nat
    = (Ok {| Brain.x1 := 9%nat; Brain.x2 := 21%nat;
             Brain.item_y := 0%Z; Brain.idx := 0%nat |}, 4%nat).
Proof.
  apply (BrainMoreFacts.item_of_parsed_table nat nat toy_files toy_join toy_processor
           (Brain.data_info toy_processor)
           (fun img g => ((img + g)%nat, S g)) (fun img g => ((img * g)%nat, S g))
           0%nat 2%nat
           {| Brain.RID := "a"; Brain.Conv := 0;
              Brain.MRI := Brain.Str "s1"; Brain.PET := Brain.NaN |}
           "s1" 7%nat).
  - reflexivity.
  - reflexivity.
  - reflexivity.
Defined.

Lemma getitem_failure_draws_nothing_witness :
  raises (fst (Brain.getitem toy_files moco_with_missing_file 0%nat 2%nat)) /\
  snd (Brain.getitem toy_files moco_with_missing_file 0%nat 2%nat) = 2%nat.
Proof.
  apply (BrainMoreFacts.getitem_failure_draws_nothing nat nat toy_files
           moco_with_missing_file).
  intros path H. simpl in H. injection H as <-.
  exists FileNotFoundError. reflexivity.
Defined.

Lemma toy_mix_run :
  BrainMore.mx_getitem toy_files toy_randint toy_beta toy_mix toy_mixup 1%nat 0%nat
  = (Ok toy_mix_item, 2%nat).
Proof. reflexivity. Qed.

Lemma mixup_labels_are_distributions_witness :
  is_distribution2 (BrainMore.mx_y toy_mix_item) /\
  is_distribution2 (BrainMore.mx_y_mix toy_mix_item).
Proof.
  apply (MixUpFacts.mixup_labels_are_distributions nat nat toy_files toy_randint
           toy_beta toy_mix toy_mixup 1%nat 0%nat 2%nat toy_mix_item).
  - intros a g0 lam g1 H. unfold toy_beta in H. injection H as <- _. lra.
  - exact toy_mix_run.
Defined.

Lemma mixup_of_same_class_keeps_label_witness :
  BrainMore.mx_y_mix toy_mix_item = BrainMore.mx_y toy_mix_item.
Proof.
  apply (MixUpFacts.mixup_of_same_class_keeps_label nat nat toy_files toy_randint
           toy_beta toy_mix toy_mixup 1%nat 0%nat 2%nat toy_mix_item (-1)%Z 1%Z).
  - exact toy_mix_run.
  - reflexivity.
  - reflexivity.
  - reflexivity.
Defined.

Lemma mixup_label_vector_witness :
  (((-1) = 1 \/ (-1) = -1)%Z -> BrainMore.mx_y toy_mix_item = [0; 1]) /\
  ((-1)%Z = 0%Z -> BrainMore.mx_y toy_mix_item = [1; 0]).
Proof.
  apply (MixUpFacts.mixup_label_vector nat nat toy_files toy_randint
           toy_beta toy_mix toy_mixup 1%nat 0%nat 2%nat toy_mix_item (-1)%Z).
  - exact toy_mix_run.
  - reflexivity.
Defined.

Lemma mixup_rejects_other_labels_witness :
  BrainMore.mx_getitem toy_files toy_randint toy_beta toy_mix three_class_mixup
                       0%nat 3%nat
  = (Raise IndexError, 3%nat).
Proof.
  apply (MixUpFacts.mixup_rejects_other_labels nat nat toy_files toy_randint
           toy_beta toy_mix three_class_mixup 0%nat 3%nat).
  intros l H. simpl in H. injection H as <-. lia.
Defined.
